(** * Splitting a competition CSV into Institutions and Teams

    A shallow embedding of [main.py]: the fuzzy grouping of institution
    names ([fuzzy_grouping]), the normalisation of the text columns and the
    construction of the two result tables ([save_csv]).

    The program rests on two third-party libraries.  pandas is rendered by
    a small column-oriented data frame with the handful of operations the
    program calls: a cell is a text, a number or missing, and a column has
    dtype [object] when it holds a text.  fuzzywuzzy's scorer is a parameter
    of the embedding; the general theorems hold for every scorer, some
    under the laws [scorer_laws], and [Fuzz.token_sort_ratio] is a model of
    the scorer the program passes, used to run the program on concrete
    tables.  The file system is a parameter as well: [read_csv] and
    [to_csv] act on a disk and either may raise.  Text is ASCII text
    throughout. *)

From Stdlib Require Import String Ascii List Arith ZArith Bool Lia.
Import ListNotations.
Open Scope string_scope.
Open Scope list_scope.
Open Scope nat_scope.

(** ** Python text methods, on ASCII text *)

Module PyStr.

Definition between (lo hi : nat) (c : ascii) : bool :=
  let n := nat_of_ascii c in (lo <=? n) && (n <=? hi).

(** [str.isspace] on one character: tab to carriage return, the four
    separators 28..31 and the blank. *)
Definition isspace (c : ascii) : bool :=
  between 9 13 c || between 28 32 c.

Definition isupper (c : ascii) : bool := between 65 90 c.
Definition islower (c : ascii) : bool := between 97 122 c.
Definition isdigit (c : ascii) : bool := between 48 57 c.

Definition upper_char (c : ascii) : ascii :=
  if islower c then ascii_of_nat (nat_of_ascii c - 32) else c.

Definition lower_char (c : ascii) : ascii :=
  if isupper c then ascii_of_nat (nat_of_ascii c + 32) else c.

Fixpoint map (f : ascii -> ascii) (s : string) : string :=
  match s with
  | EmptyString => EmptyString
  | String c r => String (f c) (map f r)
  end.

Definition upper : string -> string := map upper_char.
Definition lower : string -> string := map lower_char.

(** [str.capitalize]: first character upper case, the rest lower case. *)
Definition capitalize (s : string) : string :=
  match s with
  | EmptyString => EmptyString
  | String c r => String (upper_char c) (lower r)
  end.

Fixpoint lstrip (s : string) : string :=
  match s with
  | EmptyString => EmptyString
  | String c r => if isspace c then lstrip r else s
  end.

Fixpoint rstrip (s : string) : string :=
  match s with
  | EmptyString => EmptyString
  | String c r =>
      match rstrip r with
      | EmptyString => if isspace c then EmptyString else String c EmptyString
      | r' => String c r'
      end
  end.

(** [str.strip] without argument. *)
Definition strip (s : string) : string := lstrip (rstrip s).

(** [str.split] without argument: the maximal runs of characters that are
    not white space.  [cur] is the run being read, reversed. *)
Fixpoint split_from (cur : list ascii) (s : string) : list string :=
  let flush rest :=
    match cur with
    | [] => rest
    | _ => string_of_list_ascii (rev cur) :: rest
    end in
  match s with
  | EmptyString => flush []
  | String c r =>
      if isspace c then flush (split_from [] r) else split_from (c :: cur) r
  end.

Definition split (s : string) : list string := split_from [] s.

(** [sorted] on a list of strings (insertion sort on the code points). *)
Fixpoint insert_sorted (t : string) (l : list string) : list string :=
  match l with
  | [] => [t]
  | u :: l' => if String.leb t u then t :: l else u :: insert_sorted t l'
  end.

Definition sorted (l : list string) : list string :=
  fold_right insert_sorted [] l.

End PyStr.

(** ** The scorer of fuzzywuzzy

    [fuzz.token_sort_ratio] is not part of the repository.  What follows
    models it on ASCII text, with the ratio of the Levenshtein back end
    (twice the longest common subsequence over the total length). *)

Module Fuzz.

(** A word character of the regular expression [\W]'s complement. *)
Definition isword (c : ascii) : bool :=
  PyStr.isupper c || PyStr.islower c || PyStr.isdigit c
  || (nat_of_ascii c =? 95).

Definition replace_non_word (c : ascii) : ascii :=
  if isword c then c else " "%char.

(** [utils.full_process]: non-word characters become blanks, then lower
    case, then strip. *)
Definition full_process (s : string) : string :=
  PyStr.strip (PyStr.lower (PyStr.map replace_non_word s)).

(** [_process_and_sort]. *)
Definition process_and_sort (s : string) : string :=
  PyStr.strip (String.concat " " (PyStr.sorted (PyStr.split (full_process s)))).

Fixpoint lcs (a b : list ascii) : nat :=
  match a with
  | [] => 0
  | x :: a' =>
      (fix lcs_a (b : list ascii) : nat :=
         match b with
         | [] => 0
         | y :: b' =>
             if Ascii.eqb x y then S (lcs a' b')
             else Nat.max (lcs a' b) (lcs_a b')
         end) b
  end.

(** [int(round(q / d))], ties to the even neighbour. *)
Definition round_div (q d : nat) : nat :=
  let k := q / d in
  let r := q mod d in
  if 2 * r <? d then k
  else if d <? 2 * r then S k
  else if Nat.even k then k else S k.

(** [fuzz.ratio]: 100 on equal strings, 0 when one is empty. *)
Definition ratio (s1 s2 : string) : nat :=
  if String.eqb s1 s2 then 100
  else if (String.length s1 =? 0) || (String.length s2 =? 0) then 0
  else
    let m := lcs (list_ascii_of_string s1) (list_ascii_of_string s2) in
    round_div (200 * m) (String.length s1 + String.length s2).

Definition token_sort_ratio (s1 s2 : string) : nat :=
  ratio (process_and_sort s1) (process_and_sort s2).

End Fuzz.

(** ** [fuzzy_grouping]: the loop over the names *)

(** [grouped_names], a Python dictionary: the entries in insertion order. *)
Definition dict := list (string * string).

Fixpoint dict_get (d : dict) (k : string) : option string :=
  match d with
  | [] => None
  | (k', v) :: d' => if String.eqb k' k then Some v else dict_get d' k
  end.

(** [d[k] = v]: an existing key keeps its place. *)
Fixpoint dict_set (d : dict) (k v : string) : dict :=
  match d with
  | [] => [(k, v)]
  | (k', v') :: d' =>
      if String.eqb k' k then (k', v) :: d' else (k', v') :: dict_set d' k v
  end.

Definition keys (d : dict) : list string := List.map fst d.

Definition scorer_t := string -> string -> nat.

(** [max(best_list, key=lambda i: i[1])]: the first entry of highest score. *)
Fixpoint max_by_score (l : list (string * nat)) : option (string * nat) :=
  match l with
  | [] => None
  | (c, s) :: l' =>
      match max_by_score l' with
      | Some (c', s') => if s <? s' then Some (c', s') else Some (c, s)
      | None => Some (c, s)
      end
  end.

(** [process.extractOne(query, choices, scorer=scorer)], with the default
    [score_cutoff] of 0; [None] when nothing is left to choose from. *)
Definition extractOne (scorer : scorer_t) (query : string)
    (choices : list string) : option (string * nat) :=
  let score_cutoff := 0 in
  let best_list :=
    filter (fun cs => score_cutoff <=? snd cs)
           (List.map (fun choice => (choice, scorer query choice)) choices) in
  max_by_score best_list.

(** One turn of the [for name in names] loop; [None] is an exception. *)
Definition group_name (scorer : scorer_t) (threshold : nat)
    (grouped_names : dict) (name : string) : option dict :=
  match grouped_names with
  | _ :: _ =>
      match extractOne scorer name (keys grouped_names) with
      | Some (mtch, score) =>
          if threshold <? score then
            match dict_get grouped_names mtch with
            | Some canonical => Some (dict_set grouped_names name canonical)
            | None => None
            end
          else Some (dict_set grouped_names name name)
      | None => None
      end
  | [] => Some (dict_set grouped_names name name)
  end.

Fixpoint group_names_from (scorer : scorer_t) (threshold : nat)
    (grouped_names : dict) (names : list string) : option dict :=
  match names with
  | [] => Some grouped_names
  | name :: rest =>
      match group_name scorer threshold grouped_names name with
      | Some d => group_names_from scorer threshold d rest
      | None => None
      end
  end.

Definition group_names (scorer : scorer_t) (threshold : nat)
    (names : list string) : option dict :=
  group_names_from scorer threshold [] names.

(** ** A column-oriented data frame *)

Inductive cell : Type :=
| Str (s : string)
| Num (z : Z)
| NaN.

Definition Series := list cell.

(** The columns in order, each with its name. *)
Definition DataFrame := list (string * Series).

Definition cell_eqb (a b : cell) : bool :=
  match a, b with
  | Str s, Str t => String.eqb s t
  | Num x, Num y => Z.eqb x y
  | NaN, NaN => true
  | _, _ => false
  end.

Definition is_str (c : cell) : bool :=
  match c with Str _ => true | _ => false end.

Definition is_null (c : cell) : bool :=
  match c with NaN => true | _ => false end.

Notation "x <- e ;; k" :=
  (match e with Some x => k | None => None end)
    (at level 61, e at next level, right associativity, only parsing).

Definition columns (df : DataFrame) : list string := List.map fst df.

(** [df[column]]; [None] is a [KeyError]. *)
Fixpoint get (df : DataFrame) (column : string) : option Series :=
  match df with
  | [] => None
  | (c, col) :: df' => if String.eqb c column then Some col else get df' column
  end.

(** [df[column] = col]: replaces the column, or adds it as the last one. *)
Fixpoint set_column (df : DataFrame) (column : string) (col : Series)
  : DataFrame :=
  match df with
  | [] => [(column, col)]
  | (c, old) :: df' =>
      if String.eqb c column then (c, col) :: df'
      else (c, old) :: set_column df' column col
  end.

(** The number of rows, read off the first column. *)
Definition nrows (df : DataFrame) : nat :=
  match df with
  | [] => 0
  | (_, col) :: _ => length col
  end.

(** The cell of row [i] in a column. *)
Definition cell_at (df : DataFrame) (column : string) (i : nat) : option cell :=
  col <- get df column ;; nth_error col i.

Definition mem (x : cell) (l : Series) : bool := existsb (cell_eqb x) l.

(** The values of a list in order of first appearance. *)
Fixpoint unique_by {A : Type} (eqb : A -> A -> bool) (l : list A) : list A :=
  match l with
  | [] => []
  | x :: rest => x :: filter (fun y => negb (eqb y x)) (unique_by eqb rest)
  end.

(** [Series.unique]. *)
Definition unique (col : Series) : Series := unique_by cell_eqb col.

(** [Series.map(d)] with a dictionary: a value that is no key gives NaN. *)
Definition map_dict (d : dict) (col : Series) : Series :=
  List.map (fun c =>
              match c with
              | Str s => match dict_get d s with Some v => Str v | None => NaN end
              | _ => NaN
              end) col.

Definition fillna (value : string) (col : Series) : Series :=
  List.map (fun c => if is_null c then Str value else c) col.

(** [dtype == object]: the column holds text. *)
Definition dtype_object (col : Series) : bool := existsb is_str col.

(** A method of the [.str] accessor: cells that are not text give NaN. *)
Definition str_method (f : string -> string) (col : Series) : Series :=
  List.map (fun c => match c with Str s => Str (f s) | _ => NaN end) col.

Definition str_strip : Series -> Series := str_method PyStr.strip.
Definition str_capitalize : Series -> Series := str_method PyStr.capitalize.

(** [Series.apply(f)] for an [f] that calls a string method on its argument:
    a cell that is not text raises. *)
Fixpoint Series_apply (f : string -> string) (col : Series) : option Series :=
  match col with
  | [] => Some []
  | Str x :: rest => rest' <- Series_apply f rest ;; Some (Str (f x) :: rest')
  | _ :: _ => None
  end.

(** [drop_duplicates(subset=[key])]: the rows to keep, those where the key
    shows up for the first time. *)
Fixpoint first_occurrence (seen key : Series) : list bool :=
  match key with
  | [] => []
  | k :: rest => negb (mem k seen) :: first_occurrence (k :: seen) rest
  end.

(** The rows of a column selected by a mask. *)
Fixpoint select (mask : list bool) (col : Series) : Series :=
  match mask, col with
  | b :: mask', x :: col' => if b then x :: select mask' col' else select mask' col'
  | _, _ => []
  end.

(** The positions of [k] in [col], counted from [i]. *)
Fixpoint positions (i : nat) (k : cell) (col : Series) : list nat :=
  match col with
  | [] => []
  | x :: rest =>
      if cell_eqb x k then i :: positions (S i) k rest
      else positions (S i) k rest
  end.

(** [merge(how='left')] on one key: each left row with every right row of
    the same key, in order, or once with no right row. *)
Fixpoint merge_left (i : nat) (left_key right_key : Series)
  : list (nat * option nat) :=
  match left_key with
  | [] => []
  | k :: rest =>
      match positions 0 k right_key with
      | [] => [(i, None)]
      | js => List.map (fun j => (i, Some j)) js
      end ++ merge_left (S i) rest right_key
  end.

Definition take_left (plan : list (nat * option nat)) (col : Series) : Series :=
  List.map (fun p => nth (fst p) col NaN) plan.

Definition take_right (plan : list (nat * option nat)) (col : Series) : Series :=
  List.map (fun p => match snd p with Some j => nth j col NaN | None => NaN end)
           plan.

(** ** The program *)

Definition state_abbreviations : dict :=
  [ ("AL", "Alabama"); ("AK", "Alaska"); ("AZ", "Arizona"); ("AR", "Arkansas");
    ("CA", "California"); ("CO", "Colorado"); ("CT", "Connecticut");
    ("DE", "Delaware"); ("FL", "Florida"); ("GA", "Georgia"); ("HI", "Hawaii");
    ("ID", "Idaho"); ("IL", "Illinois"); ("IN", "Indiana"); ("IA", "Iowa");
    ("KS", "Kansas"); ("KY", "Kentucky"); ("LA", "Louisiana"); ("ME", "Maine");
    ("MD", "Maryland"); ("MA", "Massachusetts"); ("MI", "Michigan");
    ("MN", "Minnesota"); ("MS", "Mississippi"); ("MO", "Missouri");
    ("MT", "Montana"); ("NE", "Nebraska"); ("NV", "Nevada");
    ("NH", "New Hampshire"); ("NJ", "New Jersey"); ("NM", "New Mexico");
    ("NY", "New York"); ("NC", "North Carolina"); ("ND", "North Dakota");
    ("OH", "Ohio"); ("OK", "Oklahoma"); ("OR", "Oregon"); ("PA", "Pennsylvania");
    ("RI", "Rhode Island"); ("SC", "South Carolina"); ("SD", "South Dakota");
    ("TN", "Tennessee"); ("TX", "Texas"); ("UT", "Utah"); ("VT", "Vermont");
    ("VA", "Virginia"); ("WA", "Washington"); ("WV", "West Virginia");
    ("WI", "Wisconsin"); ("WY", "Wyoming") ].

(** The text of a column, when every cell is text.  The scorer works on
    text, and [extractOne] raises on a query that is not text; the model
    takes every column with a cell that is not text as an error, also the
    column where only the first name is no text, which the program lets
    through.  Such tables are no [valid_table]. *)
Fixpoint texts (col : Series) : option (list string) :=
  match col with
  | [] => Some []
  | Str s :: rest => rest' <- texts rest ;; Some (s :: rest')
  | _ :: _ => None
  end.

Definition fuzzy_grouping (scorer : scorer_t) (dataframe : DataFrame)
    (column_name : string) (threshold : nat) : option DataFrame :=
  col <- get dataframe column_name ;;
  names <- texts (unique col) ;;
  grouped_names <- group_names scorer threshold names ;;
  Some (set_column dataframe "Grouped Institution" (map_dict grouped_names col)).

(** The [lambda] of line 83. *)
Definition expand_state (x : string) : string :=
  match dict_get state_abbreviations (PyStr.upper x) with
  | Some full_name => if String.length x =? 2 then full_name else x
  | None => x
  end.

(** The body of the loop over the columns (lines 79 to 86). *)
Definition normalize_column (column : string) (col : Series) : option Series :=
  if dtype_object col && negb (String.eqb column "Country") then
    if String.eqb column "State/Province" then Series_apply expand_state (str_strip col)
    else Some (str_capitalize (str_strip col))
  else Some col.

(** The loop over the columns: each column is replaced by its normal form. *)
Fixpoint normalize_columns (df : DataFrame) : option DataFrame :=
  match df with
  | [] => Some []
  | (column, col) :: df' =>
      col' <- normalize_column column col ;;
      rest <- normalize_columns df' ;;
      Some ((column, col') :: rest)
  end.

(** Lines 72 to 86: grouping, the filling of the missing states and the
    normalisation. *)
Definition prepare (scorer : scorer_t) (data_2015 : DataFrame) : option DataFrame :=
  data_2015 <- fuzzy_grouping scorer data_2015 "Institution" 87 ;;
  state <- get data_2015 "State/Province" ;;
  let data_2015 := set_column data_2015 "State/Province" (fillna "Unknown" state) in
  normalize_columns data_2015.

(** Lines 88 to 94: the list of institutions. *)
Definition unique_institutions (data_2015 : DataFrame) : option DataFrame :=
  grouped <- get data_2015 "Grouped Institution" ;;
  city <- get data_2015 "City" ;;
  state <- get data_2015 "State/Province" ;;
  country <- get data_2015 "Country" ;;
  let keep := first_occurrence [] grouped in
  let index := List.map (fun i => Num (Z.of_nat i))
                        (seq 0 (length (select keep grouped))) in
  Some [ ("Institution ID", index);
         ("Institution Name", select keep grouped);
         ("City", select keep city);
         ("State/Province", select keep state);
         ("Country", select keep country) ].

Definition is_empty (col : Series) : bool :=
  match col with
  | [] => true
  | _ :: _ => false
  end.

(** [merge] compares the dtypes of its two keys, unless exactly one of them
    has no row, and raises a [ValueError] on a key of text against a key of
    numbers.  The key on the left is here a column as [read_csv] and the
    [.str] methods leave it, of dtype [object] also when it has no row; the
    key on the right comes out of [Series.map], of dtype [object] when it
    holds a text and [float64] when it holds none. *)
Definition merge_refuses (left_key right_key : Series) : bool :=
  Bool.eqb (is_empty left_key) (is_empty right_key)
  && negb (dtype_object right_key).

(** Lines 100 to 104: the team rows with their institution identifier;
    [None] is the exception of [merge]. *)
Definition team_details (data_2015 institutions : DataFrame) : option DataFrame :=
  team_number <- get data_2015 "Team Number" ;;
  advisor <- get data_2015 "Advisor" ;;
  problem <- get data_2015 "Problem" ;;
  ranking <- get data_2015 "Ranking" ;;
  institution <- get data_2015 "Institution" ;;
  institution_name <- get institutions "Institution Name" ;;
  institution_id <- get institutions "Institution ID" ;;
  if merge_refuses institution institution_name then None
  else
    let plan := merge_left 0 institution institution_name in
    Some [ ("Team Number", take_left plan team_number);
           ("Advisor", take_left plan advisor);
           ("Problem", take_left plan problem);
           ("Ranking", take_left plan ranking);
           ("Institution", take_left plan institution);
           ("Institution ID", take_right plan institution_id) ].

Definition required_columns : list string :=
  [ "Institution"; "City"; "State/Province"; "Country"; "Team Number";
    "Advisor"; "Problem"; "Ranking" ].

Definition contains (l : list string) (x : string) : bool :=
  existsb (String.eqb x) l.

Definition issubset (a b : list string) : bool := forallb (contains b) a.

Definition difference (a b : list string) : list string :=
  filter (fun x => negb (contains b x)) a.

(** What a run prints and writes. *)
Inductive message : Type :=
| Failed_to_load_data (e : string)
| Missing_required_columns (missing_columns : list string)
| Files_saved (institutions_path teams_path : string).

Inductive effect : Type :=
| Print (m : message)
| ToCsv (path : string) (table : DataFrame).

Definition institutions_path : string := "results/Institutions.csv".
Definition teams_path : string := "results/Teams.csv".

(** How a call ends: it returns, or an exception leaves it. *)
Inductive ending : Type :=
| Returned
| Raised.

(** What a call of [save_csv] did: what it printed and wrote, in order, the
    disk it left, and how it ended. *)
Record saving (FS : Type) : Type := {
  effects : list effect;
  disk : FS;
  outcome : ending
}.

Arguments effects {FS} _.
Arguments disk {FS} _.
Arguments outcome {FS} _.

Section SaveCsv.

Variable scorer : scorer_t.

(** The file system: the disks, what [read_csv] finds at a path, the table
    or the text of the exception, and what [to_csv] makes of the disk and
    whether it returns. *)
Variable FS : Type.
Variable read_csv : FS -> string -> string + DataFrame.
Variable to_csv : FS -> string -> DataFrame -> FS * ending.

(** [save_csv].  The exceptions of the load are caught; an exception of the
    grouping, of the normalisation, of [merge] or of [to_csv] ends the call,
    after what was written before it. *)
Definition save_csv (fs : FS) (file_path : string) : saving FS :=
  match read_csv fs file_path with
  | inl e =>
      {| effects := [Print (Failed_to_load_data e)]; disk := fs;
         outcome := Returned |}
  | inr data_2015 =>
      if negb (issubset required_columns (columns data_2015)) then
        let missing_columns := difference required_columns (columns data_2015) in
        {| effects := [Print (Missing_required_columns missing_columns)];
           disk := fs; outcome := Returned |}
      else
        match prepare scorer data_2015 with
        | None => {| effects := []; disk := fs; outcome := Raised |}
        | Some data_2015 =>
            match unique_institutions data_2015 with
            | None => {| effects := []; disk := fs; outcome := Raised |}
            | Some institutions =>
                match to_csv fs institutions_path institutions with
                | (fs1, Raised) =>
                    {| effects := []; disk := fs1; outcome := Raised |}
                | (fs1, Returned) =>
                    let written := [ToCsv institutions_path institutions] in
                    match team_details data_2015 institutions with
                    | None =>
                        {| effects := written; disk := fs1; outcome := Raised |}
                    | Some team_details_correct =>
                        match to_csv fs1 teams_path team_details_correct with
                        | (fs2, Raised) =>
                            {| effects := written; disk := fs2;
                               outcome := Raised |}
                        | (fs2, Returned) =>
                            {| effects :=
                                 [ ToCsv institutions_path institutions;
                                   ToCsv teams_path team_details_correct;
                                   Print (Files_saved institutions_path
                                                      teams_path) ];
                               disk := fs2; outcome := Returned |}
                        end
                    end
                end
            end
        end
  end.

End SaveCsv.

(** The disk [fs] takes the two files of a run, one after the other. *)
Definition takes_both_files {FS : Type}
    (to_csv : FS -> string -> DataFrame -> FS * ending) (fs : FS) : Prop :=
  forall institutions,
  exists fs1,
    to_csv fs institutions_path institutions = (fs1, Returned)
    /\ forall teams,
         exists fs2, to_csv fs1 teams_path teams = (fs2, Returned).

(** ** Tables the program is meant for *)

Fixpoint distinct (l : list string) : bool :=
  match l with
  | [] => true
  | x :: rest => negb (contains rest x) && distinct rest
  end.

Definition text_or_null (c : cell) : bool := is_str c || is_null c.

(** A table as [read_csv] gives it, with the columns the program asks for:
    the column names differ, [Institution] holds text in every row and
    [State/Province] holds text or nothing. *)
Definition valid_table (df : DataFrame) : bool :=
  distinct (columns df)
  && issubset required_columns (columns df)
  && match get df "Institution" with
     | Some col => forallb is_str col
     | None => false
     end
  && match get df "State/Province" with
     | Some col => forallb text_or_null col
     | None => false
     end.

(** The table has a row. *)
Definition populated (df : DataFrame) : bool :=
  match get df "Institution" with
  | Some (_ :: _) => true
  | _ => false
  end.

(** ** Notions used in the statements *)

(** The normal form of a text cell: [.str.strip().str.capitalize()]. *)
Definition normal (s : string) : string := PyStr.capitalize (PyStr.strip s).

(** The canonical name of [n] in a finished dictionary. *)
Definition representative (d : dict) (n : string) : string :=
  match dict_get d n with Some v => v | None => n end.

(** The normal form of a [State/Province] cell: [fillna], [strip] and the
    expansion of the abbreviations. *)
Definition state_normal (c : cell) : cell :=
  match c with
  | Str s => Str (expand_state (PyStr.strip s))
  | _ => Str "Unknown"
  end.

(** The identifier the merge gives to a team row of key [k]. *)
Definition team_id (names : Series) (k : cell) : cell :=
  match positions 0 k names with
  | j :: _ => Num (Z.of_nat j)
  | [] => NaN
  end.

(** The laws of a scorer that looks at its arguments only up to white space
    around them and letter case, as [token_sort_ratio] does. *)
Record scorer_laws (scorer : scorer_t) : Prop := {
  score_le_100 : forall a b, scorer a b <= 100;
  score_refl : forall a, scorer a a = 100;
  score_normal : forall a b, scorer (normal a) (normal b) = scorer a b
}.

(** The two character steps of [full_process] in one. *)
Definition fold_char (c : ascii) : ascii :=
  PyStr.lower_char (Fuzz.replace_non_word c).

(** ** The loop of [fuzzy_grouping] as a relation *)

Section GroupingNotions.

Variable scorer : scorer_t.
Variable threshold : nat.

(** [m] is the first of the choices with the highest score [s]. *)
Definition best (query : string) (choices : list string) (m : string) (s : nat)
  : Prop :=
  exists l1 l2, choices = l1 ++ m :: l2 /\ s = scorer query m
    /\ (forall x, In x l1 -> scorer query x < s)
    /\ (forall x, In x l2 -> scorer query x <= s).

(** The value the loop gives to a new name. *)
Definition canonical (d : dict) (name : string) : string :=
  match extractOne scorer name (keys d) with
  | Some (m, score) =>
      if threshold <? score then
        match dict_get d m with Some c => c | None => name end
      else name
  | None => name
  end.

(** The dictionaries the loop builds: one entry after the other, each name
    new, each value chosen by [canonical]. *)
Inductive grouping : dict -> Prop :=
| grouping_nil : grouping []
| grouping_snoc d n :
    grouping d -> ~ In n (keys d) -> grouping (d ++ [(n, canonical d n)]).

(** Each name scores at most the threshold against the names before it. *)
Inductive apart : list string -> Prop :=
| apart_nil : apart []
| apart_snoc l u :
    apart l -> (forall y, In y l -> scorer u y <= threshold) -> apart (l ++ [u]).

End GroupingNotions.

(** What [prepare] makes of a valid table [data]: [raw] are the institution
    names of the rows, [d] the finished dictionary of [fuzzy_grouping]. *)
Record prepared (scorer : scorer_t) (data : DataFrame) (raw : list string)
    (d : dict) (data' : DataFrame) : Prop := {
  prep_institution : get data "Institution" = Some (List.map Str raw);
  prep_names : group_names scorer 87 (unique_by String.eqb raw) = Some d;
  prep_grouping : grouping scorer 87 d;
  prep_keys : keys d = unique_by String.eqb raw;
  prep_grouped :
    fuzzy_grouping scorer data "Institution" 87
    = Some (set_column data "Grouped Institution" (map_dict d (List.map Str raw)));
  prep_normalize : forall state,
    get data "State/Province" = Some state ->
    normalize_columns
      (set_column
         (set_column data "Grouped Institution" (map_dict d (List.map Str raw)))
         "State/Province" (fillna "Unknown" state))
    = Some data';
  prep_run : prepare scorer data = Some data';
  prep_get_institution :
    get data' "Institution" = Some (List.map Str (List.map normal raw));
  prep_get_grouped :
    get data' "Grouped Institution"
    = Some (List.map Str (List.map (fun n => normal (representative d n)) raw));
  prep_get_state : forall state,
    get data "State/Province" = Some state ->
    get data' "State/Province" = Some (List.map state_normal state);
  prep_get_country : get data' "Country" = get data "Country";
  prep_get_other : forall c,
    c <> "Grouped Institution" -> c <> "State/Province" ->
    get data' c = match get data c with
                  | Some col => normalize_column c col
                  | None => None
                  end
}.

(** The [Grouped Institution] column of the prepared table. *)
Definition grouped_column (d : dict) (raw : list string) : Series :=
  List.map Str (List.map (fun n => normal (representative d n)) raw).

(** The two tables [save_csv] makes of a valid table with a row, [data']
    being the prepared table. *)
Record saved (data : DataFrame) (raw : list string) (d : dict)
    (data' institutions teams : DataFrame) : Prop := {
  saved_institutions : unique_institutions data' = Some institutions;
  saved_teams : team_details data' institutions = Some teams;
  saved_names :
    get institutions "Institution Name" = Some (unique (grouped_column d raw));
  saved_ids :
    get institutions "Institution ID"
    = Some (List.map (fun i => Num (Z.of_nat i))
                     (seq 0 (length (unique (grouped_column d raw)))));
  saved_country : forall country,
    get data "Country" = Some country ->
    get institutions "Country"
    = Some (select (first_occurrence [] (grouped_column d raw)) country);
  saved_team_ids :
    get teams "Institution ID"
    = Some (List.map (team_id (unique (grouped_column d raw)))
                     (List.map Str (List.map normal raw)))
}.

(** ** The grouping as the specification words it

    Section 4.1 of the specification scores a name against the
    representatives only, the names that stand for themselves. *)

Definition representatives (d : dict) : list string :=
  List.map fst (filter (fun e => String.eqb (fst e) (snd e)) d).

Definition spec_group_name (scorer : scorer_t) (threshold : nat)
    (d : dict) (name : string) : dict :=
  match extractOne scorer name (representatives d) with
  | Some (representative, score) =>
      if threshold <? score then dict_set d name representative
      else dict_set d name name
  | None => dict_set d name name
  end.

Definition spec_group_names (scorer : scorer_t) (threshold : nat)
    (names : list string) : dict :=
  fold_left (spec_group_name scorer threshold) names [].

(** ** Sample tables *)

Definition teams_2015 : DataFrame :=
  [ ("Institution",
     [ Str "University of Montana"; Str " Montana, University of"; Str "MIT";
       Str "mit"; Str "Caltech" ]);
    ("City",
     [ Str "missoula"; Str "Missoula "; NaN; Str "cambridge"; Str "PASADENA" ]);
    ("State/Province", [ Str "mt"; NaN; Str " Ma "; Str "Xx"; Str "CA" ]);
    ("Country", [ Str " usa"; Str "USA"; Str "USA"; Str "USA"; Str "USA" ]);
    ("Team Number", [ Num 1; Num 2; Num 3; Num 4; Num 5 ]);
    ("Advisor", [ Str "ann LEE"; Str "bob"; Str "carl"; Str "dora"; NaN ]);
    ("Problem", [ Str "a"; Str "b"; Str "a"; Str "b"; Str "a" ]);
    ("Ranking",
     [ Str "meritorious winner"; Str "x"; Str "y"; Str "z"; Str "w" ]) ].

(** The two tables [save_csv] writes for [teams_2015]. *)
Definition institutions_2015 : DataFrame :=
  [ ("Institution ID", [ Num 0; Num 1; Num 2 ]);
    ("Institution Name",
     [ Str "University of montana"; Str "Mit"; Str "Caltech" ]);
    ("City", [ Str "Missoula"; NaN; Str "Pasadena" ]);
    ("State/Province",
     [ Str "Montana"; Str "Massachusetts"; Str "California" ]);
    ("Country", [ Str " usa"; Str "USA"; Str "USA" ]) ].

Definition team_details_2015 : DataFrame :=
  [ ("Team Number", [ Num 1; Num 2; Num 3; Num 4; Num 5 ]);
    ("Advisor", [ Str "Ann lee"; Str "Bob"; Str "Carl"; Str "Dora"; NaN ]);
    ("Problem", [ Str "A"; Str "B"; Str "A"; Str "B"; Str "A" ]);
    ("Ranking",
     [ Str "Meritorious winner"; Str "X"; Str "Y"; Str "Z"; Str "W" ]);
    ("Institution",
     [ Str "University of montana"; Str "Montana, university of"; Str "Mit";
       Str "Mit"; Str "Caltech" ]);
    ("Institution ID", [ Num 0; NaN; Num 1; Num 1; Num 2 ]) ].

(** A table without the [Ranking] and [Advisor] columns. *)
Definition short_table : DataFrame :=
  [ ("Institution", [ Str "MIT" ]); ("City", [ Str "Cambridge" ]);
    ("State/Province", [ Str "MA" ]); ("Country", [ Str "USA" ]);
    ("Team Number", [ Num 7 ]); ("Problem", [ Str "A" ]) ].

(** The table of a file that has the line of the column names only. *)
Definition header_only : DataFrame :=
  List.map (fun c => (c, [])) required_columns.

(** Three spellings, each one letter away from the one before. *)
Definition spellings : list string :=
  [ "Washington"; "Washingtan"; "Wachingtan" ].

(** ** [main]: the prompt loop

    The file system is the interface of [save_csv]: what [read_csv] finds
    at a path and what [to_csv] makes of the disk. *)

Inductive main_event : Type :=
| Prompt
| Quitting
| Saving (e : effect).

(** A run of [main]: what the terminal and the disk saw, the disk at the
    end, the lines of input not read, and whether the function returned. *)
Record main_run (FS : Type) : Type := {
  trace : list main_event;
  disk_after : FS;
  unread : list string;
  ended : ending
}.

Arguments trace {FS} _.
Arguments disk_after {FS} _.
Arguments unread {FS} _.
Arguments ended {FS} _.

Section MainLoop.

Variable scorer : scorer_t.
Variable FS : Type.
Variable read_csv : FS -> string -> string + DataFrame.
Variable to_csv : FS -> string -> DataFrame -> FS * ending.

(** The disk after an effect. *)
Definition perform (fs : FS) (e : effect) : FS :=
  match e with
  | ToCsv path table => fst (to_csv fs path table)
  | Print _ => fs
  end.

(** [main], reading the lines of [inputs]; [input] raises at the end of the
    input, and an exception of [save_csv] is not caught: it ends [main]
    after what the call printed and wrote. *)
Fixpoint main (fs : FS) (inputs : list string) : main_run FS :=
  match inputs with
  | [] => {| trace := [Prompt]; disk_after := fs; unread := []; ended := Raised |}
  | file_location :: rest =>
      if String.eqb file_location "1" then
        let run := save_csv scorer FS read_csv to_csv fs "data/2015.csv" in
        {| trace := Prompt :: List.map Saving (effects run);
           disk_after := disk run;
           unread := rest;
           ended := outcome run |}
      else if String.eqb file_location "2" then
        {| trace := [Prompt; Quitting]; disk_after := fs; unread := rest;
           ended := Returned |}
      else
        let run := save_csv scorer FS read_csv to_csv fs file_location in
        match outcome run with
        | Returned =>
            let next := main (disk run) rest in
            {| trace := Prompt :: List.map Saving (effects run) ++ trace next;
               disk_after := disk_after next;
               unread := unread next;
               ended := ended next |}
        | Raised =>
            {| trace := Prompt :: List.map Saving (effects run);
               disk_after := disk run;
               unread := rest;
               ended := Raised |}
        end
  end.

End MainLoop.

(** A path at which [save_csv] writes nothing: the file does not load, or
    the table lacks a required column. *)
Definition rejected (loaded : string + DataFrame) : bool :=
  match loaded with
  | inl _ => true
  | inr data => negb (issubset required_columns (columns data))
  end.

(** The message [save_csv] prints at such a path. *)
Definition rejection (loaded : string + DataFrame) : message :=
  match loaded with
  | inl e => Failed_to_load_data e
  | inr data =>
      Missing_required_columns (difference required_columns (columns data))
  end.

Definition is_prompt (e : main_event) : bool :=
  match e with
  | Prompt => true
  | _ => false
  end.

Definition is_write (e : main_event) : bool :=
  match e with
  | Saving (ToCsv _ _) => true
  | _ => false
  end.

(** Every column has as many cells as the first one. *)
Definition rectangular (df : DataFrame) : bool :=
  forallb (fun c => length (snd c) =? nrows df) df.

(** A disk for the examples: the files by path, a table read back as it was
    written, every directory there and no write refused. *)
Definition files := list (string * DataFrame).

Fixpoint read_file (fs : files) (path : string) : string + DataFrame :=
  match fs with
  | [] => inl "No such file or directory"
  | (p, table) :: fs' => if String.eqb p path then inr table else read_file fs' path
  end.

Definition write_file (fs : files) (path : string) (table : DataFrame)
  : files * ending :=
  ((path, table) :: fs, Returned).

(** The same disk without the directory [results]: [to_csv] raises. *)
Definition no_directory (fs : files) (path : string) (table : DataFrame)
  : files * ending :=
  (fs, Raised).

Definition disk_2015 : files :=
  [ ("data/2015.csv", teams_2015); ("short.csv", short_table);
    ("empty.csv", header_only) ].

(** [disk_2015] after [save_csv] on the sample file. *)
Definition disk_saved_2015 : files :=
  (teams_path, team_details_2015) :: (institutions_path, institutions_2015)
  :: disk_2015.

(** The run of [save_csv] on the sample file. *)
Definition run_2015 : saving files :=
  {| effects := [ ToCsv institutions_path institutions_2015;
                  ToCsv teams_path team_details_2015;
                  Print (Files_saved institutions_path teams_path) ];
     disk := disk_saved_2015; outcome := Returned |}.
(** * Facts *)

(** ** Text *)

Section CharMap.

Variable f : ascii -> ascii.
Hypothesis f_space : forall c, PyStr.isspace c = true -> PyStr.isspace (f c) = true.

Lemma lstrip_map_lstrip (s : string) :
  PyStr.lstrip (PyStr.map f (PyStr.lstrip s)) = PyStr.lstrip (PyStr.map f s).
Proof.
  induction s as [|c r IH]; simpl; trivial.
  destruct (PyStr.isspace c) eqn:E; simpl.
  - now rewrite (f_space c E).
  - reflexivity.
Qed.

Lemma rstrip_map_rstrip (s : string) :
  PyStr.rstrip (PyStr.map f (PyStr.rstrip s)) = PyStr.rstrip (PyStr.map f s).
Proof.
  induction s as [|c r IH]; simpl; trivial.
  destruct (PyStr.rstrip r) as [|c' r'] eqn:E.
  - simpl in IH. rewrite <- IH.
    destruct (PyStr.isspace c) eqn:Ec; simpl.
    + now rewrite (f_space c Ec).
    + reflexivity.
  - change (PyStr.map f (String c (String c' r')))
      with (String (f c) (PyStr.map f (String c' r'))).
    cbn [PyStr.rstrip]. now rewrite IH.
Qed.

End CharMap.

Lemma lstrip_rstrip_comm (s : string) :
  PyStr.lstrip (PyStr.rstrip s) = PyStr.rstrip (PyStr.lstrip s).
Proof.
  induction s as [|c r IH]; simpl; trivial.
  destruct (PyStr.isspace c) eqn:Ec.
  - rewrite <- IH. destruct (PyStr.rstrip r) eqn:E; simpl; now rewrite ?Ec.
  - simpl. destruct (PyStr.rstrip r) eqn:E; simpl; now rewrite Ec.
Qed.

Lemma lstrip_idem (s : string) : PyStr.lstrip (PyStr.lstrip s) = PyStr.lstrip s.
Proof.
  induction s as [|c r IH]; simpl; trivial.
  destruct (PyStr.isspace c) eqn:Ec; trivial. simpl. now rewrite Ec.
Qed.

Lemma rstrip_idem (s : string) : PyStr.rstrip (PyStr.rstrip s) = PyStr.rstrip s.
Proof.
  induction s as [|c r IH]; simpl; trivial.
  destruct (PyStr.rstrip r) as [|c' r'] eqn:E.
  - destruct (PyStr.isspace c) eqn:Ec; simpl; now rewrite ?Ec.
  - cbn [PyStr.rstrip] in *. now rewrite IH.
Qed.

Lemma strip_idem (s : string) : PyStr.strip (PyStr.strip s) = PyStr.strip s.
Proof.
  unfold PyStr.strip.
  rewrite (lstrip_rstrip_comm (PyStr.lstrip _)), lstrip_idem.
  now rewrite <- lstrip_rstrip_comm, rstrip_idem.
Qed.

Lemma strip_map_strip (f : ascii -> ascii) (s : string) :
  (forall c, PyStr.isspace c = true -> PyStr.isspace (f c) = true) ->
  PyStr.strip (PyStr.map f (PyStr.strip s)) = PyStr.strip (PyStr.map f s).
Proof.
  intros Hf. unfold PyStr.strip.
  rewrite (lstrip_rstrip_comm (PyStr.map f (PyStr.lstrip _))).
  rewrite lstrip_map_lstrip by assumption.
  rewrite <- lstrip_rstrip_comm.
  now rewrite rstrip_map_rstrip.
Qed.

Lemma map_map_string (f g : ascii -> ascii) (s : string) :
  PyStr.map f (PyStr.map g s) = PyStr.map (fun c => f (g c)) s.
Proof. induction s; simpl; congruence. Qed.

Lemma map_ext_string (f g : ascii -> ascii) (s : string) :
  (forall c, f c = g c) -> PyStr.map f s = PyStr.map g s.
Proof. intros H; induction s; simpl; congruence. Qed.

Lemma length_map_string (f : ascii -> ascii) (s : string) :
  String.length (PyStr.map f s) = String.length s.
Proof. induction s; simpl; congruence. Qed.

Ltac each_char c :=
  destruct c as [[|] [|] [|] [|] [|] [|] [|] [|]];
  vm_compute; (reflexivity || (intros; congruence)).

Lemma isspace_upper_char (c : ascii) :
  PyStr.isspace (PyStr.upper_char c) = PyStr.isspace c.
Proof. each_char c. Qed.

Lemma isspace_lower_char (c : ascii) :
  PyStr.isspace (PyStr.lower_char c) = PyStr.isspace c.
Proof. each_char c. Qed.

Lemma upper_char_idem (c : ascii) :
  PyStr.upper_char (PyStr.upper_char c) = PyStr.upper_char c.
Proof. each_char c. Qed.

Lemma lower_char_idem (c : ascii) :
  PyStr.lower_char (PyStr.lower_char c) = PyStr.lower_char c.
Proof. each_char c. Qed.

Lemma fold_char_upper (c : ascii) : fold_char (PyStr.upper_char c) = fold_char c.
Proof. each_char c. Qed.

Lemma fold_char_lower (c : ascii) : fold_char (PyStr.lower_char c) = fold_char c.
Proof. each_char c. Qed.

Lemma fold_char_space (c : ascii) :
  PyStr.isspace c = true -> PyStr.isspace (fold_char c) = true.
Proof. each_char c. Qed.

Lemma full_process_fold (s : string) :
  Fuzz.full_process s = PyStr.strip (PyStr.map fold_char s).
Proof. unfold Fuzz.full_process, PyStr.lower. now rewrite map_map_string. Qed.

Lemma map_fold_capitalize (s : string) :
  PyStr.map fold_char (PyStr.capitalize s) = PyStr.map fold_char s.
Proof.
  destruct s as [|c r]; simpl; trivial.
  rewrite fold_char_upper. f_equal.
  unfold PyStr.lower. rewrite map_map_string.
  apply map_ext_string, fold_char_lower.
Qed.

Lemma full_process_normal (s : string) :
  Fuzz.full_process (normal s) = Fuzz.full_process s.
Proof.
  rewrite !full_process_fold. unfold normal.
  rewrite map_fold_capitalize.
  apply strip_map_strip, fold_char_space.
Qed.

Lemma lstrip_head (s : string) (c : ascii) (r : string) :
  PyStr.lstrip s = String c r -> PyStr.isspace c = false.
Proof.
  induction s as [|c' r' IH]; simpl; [discriminate|].
  destruct (PyStr.isspace c') eqn:E; [exact IH|].
  intros H; injection H as -> _. exact E.
Qed.

Lemma rstrip_map (f : ascii -> ascii) (s : string) :
  (forall c, PyStr.isspace (f c) = PyStr.isspace c) ->
  PyStr.rstrip (PyStr.map f s) = PyStr.map f (PyStr.rstrip s).
Proof.
  intros Hf. induction s as [|c r IH]; simpl; trivial.
  rewrite IH, Hf.
  destruct (PyStr.rstrip r); simpl; trivial.
  now destruct (PyStr.isspace c).
Qed.

Lemma rstrip_capitalize (s : string) :
  PyStr.rstrip (PyStr.capitalize s) = PyStr.capitalize (PyStr.rstrip s).
Proof.
  destruct s as [|c r]; simpl; trivial.
  unfold PyStr.lower. rewrite rstrip_map by apply isspace_lower_char.
  rewrite isspace_upper_char.
  destruct (PyStr.rstrip r); simpl; trivial.
  now destruct (PyStr.isspace c).
Qed.

Lemma rstrip_strip (s : string) : PyStr.rstrip (PyStr.strip s) = PyStr.strip s.
Proof.
  unfold PyStr.strip. now rewrite lstrip_rstrip_comm, rstrip_idem.
Qed.

Lemma strip_capitalize_strip (s : string) :
  PyStr.strip (PyStr.capitalize (PyStr.strip s)) = PyStr.capitalize (PyStr.strip s).
Proof.
  unfold PyStr.strip at 1.
  rewrite rstrip_capitalize, rstrip_strip.
  destruct (PyStr.strip s) as [|c r] eqn:E; simpl; trivial.
  apply lstrip_head in E. now rewrite isspace_upper_char, E.
Qed.

Lemma capitalize_idem (s : string) :
  PyStr.capitalize (PyStr.capitalize s) = PyStr.capitalize s.
Proof.
  destruct s as [|c r]; simpl; trivial.
  rewrite upper_char_idem. f_equal.
  unfold PyStr.lower. rewrite map_map_string.
  apply map_ext_string, lower_char_idem.
Qed.

Lemma normal_idem (s : string) : normal (normal s) = normal s.
Proof.
  unfold normal. now rewrite strip_capitalize_strip, capitalize_idem.
Qed.

(** ** The model of [token_sort_ratio] obeys the laws *)

Lemma lcs_le_left (a b : list ascii) : Fuzz.lcs a b <= length a.
Proof.
  revert b. induction a as [|x a IH]; intros b; simpl; [lia|].
  induction b as [|y b IHb]; [lia|].
  destruct (Ascii.eqb x y).
  - specialize (IH b). lia.
  - specialize (IH (y :: b)). lia.
Qed.

Lemma lcs_le_right (a b : list ascii) : Fuzz.lcs a b <= length b.
Proof.
  revert b. induction a as [|x a IH]; intros b; simpl; [lia|].
  induction b as [|y b IHb]; [lia|].
  destruct (Ascii.eqb x y).
  - specialize (IH b). simpl. lia.
  - specialize (IH (y :: b)). simpl in *. lia.
Qed.

Lemma length_list_ascii_of_string (s : string) :
  length (list_ascii_of_string s) = String.length s.
Proof. induction s; simpl; congruence. Qed.

Lemma round_div_le_100 (q d : nat) :
  0 < d -> q <= 100 * d -> Fuzz.round_div q d <= 100.
Proof.
  intros Hd Hq. unfold Fuzz.round_div.
  pose proof (Nat.div_mod_eq q d) as E.
  pose proof (Nat.mod_upper_bound q d ltac:(lia)) as Hr.
  assert (Hk : q / d <= 100) by (apply Nat.Div0.div_le_upper_bound; lia).
  destruct (2 * (q mod d) <? d) eqn:E1; [exact Hk|].
  apply Nat.ltb_ge in E1.
  assert (q / d < 100) by nia.
  destruct (d <? 2 * (q mod d)); [lia|].
  destruct (Nat.even (q / d)); lia.
Qed.

Lemma ratio_le_100 (s1 s2 : string) : Fuzz.ratio s1 s2 <= 100.
Proof.
  unfold Fuzz.ratio.
  destruct (String.eqb s1 s2); [lia|].
  destruct (String.length s1 =? 0) eqn:E1; simpl; [lia|].
  destruct (String.length s2 =? 0) eqn:E2; simpl; [lia|].
  apply Nat.eqb_neq in E1, E2.
  pose proof (lcs_le_left (list_ascii_of_string s1) (list_ascii_of_string s2)).
  pose proof (lcs_le_right (list_ascii_of_string s1) (list_ascii_of_string s2)).
  rewrite length_list_ascii_of_string in *.
  apply round_div_le_100; lia.
Qed.

Lemma token_sort_ratio_laws : scorer_laws Fuzz.token_sort_ratio.
Proof.
  split; unfold Fuzz.token_sort_ratio.
  - intros a b. apply ratio_le_100.
  - intros a. unfold Fuzz.ratio. now rewrite String.eqb_refl.
  - intros a b. unfold Fuzz.process_and_sort. now rewrite !full_process_normal.
Qed.

(** ** Dictionaries *)

Lemma dict_get_app (d1 d2 : dict) (k : string) :
  dict_get (d1 ++ d2) k =
  match dict_get d1 k with Some v => Some v | None => dict_get d2 k end.
Proof.
  induction d1 as [|[k' v'] d1 IH]; simpl; trivial.
  now destruct (String.eqb k' k).
Qed.

Lemma dict_get_keys (d : dict) (k : string) :
  In k (keys d) <-> exists v, dict_get d k = Some v.
Proof.
  induction d as [|[k' v'] d IH]; simpl.
  - split; [tauto | intros [v H]; discriminate].
  - destruct (String.eqb_spec k' k) as [->|N].
    + split; eauto.
    + rewrite <- IH. tauto.
Qed.

Lemma dict_get_fresh (d : dict) (k : string) :
  ~ In k (keys d) -> dict_get d k = None.
Proof.
  intros H. destruct (dict_get d k) eqn:E; trivial.
  exfalso. apply H, dict_get_keys. eauto.
Qed.

Lemma dict_set_fresh (d : dict) (k v : string) :
  ~ In k (keys d) -> dict_set d k v = d ++ [(k, v)].
Proof.
  induction d as [|[k' v'] d IH]; simpl; trivial.
  intros H. destruct (String.eqb_spec k' k) as [->|N]; [tauto|].
  rewrite IH; tauto.
Qed.

Lemma keys_app (d1 d2 : dict) : keys (d1 ++ d2) = keys d1 ++ keys d2.
Proof. apply map_app. Qed.

Lemma dict_get_snoc_old (d : dict) (x cx k v : string) :
  dict_get d k = Some v -> dict_get (d ++ [(x, cx)]) k = Some v.
Proof. intros H. now rewrite dict_get_app, H. Qed.

Lemma dict_get_snoc_new (d : dict) (x cx : string) :
  ~ In x (keys d) -> dict_get (d ++ [(x, cx)]) x = Some cx.
Proof.
  intros H. rewrite dict_get_app, (dict_get_fresh _ _ H). simpl.
  now rewrite String.eqb_refl.
Qed.

Lemma dict_get_snoc_inv (d : dict) (x cx k v : string) :
  dict_get (d ++ [(x, cx)]) k = Some v ->
  dict_get d k = Some v \/ (~ In k (keys d) /\ k = x /\ v = cx).
Proof.
  rewrite dict_get_app. destruct (dict_get d k) eqn:E; [tauto|].
  simpl. destruct (String.eqb_spec x k) as [->|N]; [|discriminate].
  intros H; injection H as <-. right. repeat split; trivial.
  intros HI. apply dict_get_keys in HI as [v E']. congruence.
Qed.

(** ** The choice of [extractOne] *)

Lemma max_by_score_none (l : list (string * nat)) :
  max_by_score l = None -> l = [].
Proof.
  destruct l as [|[c s] l]; simpl; trivial.
  destruct (max_by_score l) as [[c' s']|]; [|discriminate].
  destruct (s <? s'); discriminate.
Qed.

Lemma max_by_score_spec (l : list (string * nat)) (c : string) (s : nat) :
  max_by_score l = Some (c, s) ->
  exists l1 l2, l = l1 ++ (c, s) :: l2
    /\ (forall p, In p l1 -> snd p < s)
    /\ (forall p, In p l2 -> snd p <= s).
Proof.
  revert c s. induction l as [|[c0 s0] l IH]; simpl; [discriminate|].
  intros c s. destruct (max_by_score l) as [[c' s']|] eqn:E.
  - destruct (IH c' s' eq_refl) as (l1 & l2 & -> & H1 & H2).
    destruct (s0 <? s') eqn:L; intros H; injection H as <- <-.
    + apply Nat.ltb_lt in L.
      exists ((c0, s0) :: l1), l2. repeat split; trivial.
      intros p [<-|Hp]; simpl; auto.
    + apply Nat.ltb_ge in L.
      exists [], (l1 ++ (c', s') :: l2). repeat split; trivial; [easy|].
      intros p Hp. apply in_app_or in Hp as [Hp|[<-|Hp]]; simpl.
      * specialize (H1 p Hp). lia.
      * exact L.
      * specialize (H2 p Hp). lia.
  - apply max_by_score_none in E as ->.
    intros H; injection H as <- <-. exists [], []. repeat split; easy.
Qed.

Section Grouping.

Variable scorer : scorer_t.
Variable threshold : nat.

Lemma best_in query choices m s : best scorer query choices m s -> In m choices.
Proof. intros (l1 & l2 & -> & _). apply in_elt. Qed.

Lemma best_max query choices m s x :
  best scorer query choices m s -> In x choices -> scorer query x <= s.
Proof.
  intros (l1 & l2 & -> & -> & H1 & H2) Hx.
  apply in_app_or in Hx as [Hx|[<-|Hx]]; auto.
  specialize (H1 x Hx). lia.
Qed.

Lemma cutoff_keeps_all (l : list (string * nat)) :
  filter (fun cs => 0 <=? snd cs) l = l.
Proof.
  induction l as [|[c s] l IH]; [trivial|].
  change (filter (fun cs => 0 <=? snd cs) ((c, s) :: l))
    with ((c, s) :: filter (fun cs => 0 <=? snd cs) l).
  now rewrite IH.
Qed.

Lemma extractOne_spec query choices m s :
  extractOne scorer query choices = Some (m, s) -> best scorer query choices m s.
Proof.
  unfold extractOne. rewrite cutoff_keeps_all. intros H.
  apply max_by_score_spec in H as (l1 & l2 & E & H1 & H2).
  apply map_eq_app in E as (c1 & c2 & -> & <- & E).
  apply map_eq_cons in E as (m' & c3 & -> & E & <-).
  injection E as -> <-.
  exists c1, c3. repeat split; trivial.
  - intros x Hx. apply (H1 (x, scorer query x)).
    now apply (in_map (fun choice => (choice, scorer query choice))).
  - intros x Hx. apply (H2 (x, scorer query x)).
    now apply (in_map (fun choice => (choice, scorer query choice))).
Qed.

Lemma extractOne_none query choices :
  extractOne scorer query choices = None -> choices = [].
Proof.
  unfold extractOne. rewrite cutoff_keeps_all. intros H.
  apply max_by_score_none in H. now destruct choices.
Qed.

Lemma canonical_cases (d : dict) (n : string) :
  (canonical scorer threshold d n = n /\ forall x, In x (keys d) -> scorer n x <= threshold)
  \/ (exists m s c, best scorer n (keys d) m s /\ threshold < s
        /\ dict_get d m = Some c /\ canonical scorer threshold d n = c).
Proof.
  unfold canonical. destruct (extractOne scorer n (keys d)) as [[m s]|] eqn:E.
  - apply extractOne_spec in E.
    destruct (threshold <? s) eqn:L.
    + apply Nat.ltb_lt in L. right.
      destruct (proj1 (dict_get_keys d m) (best_in _ _ _ _ E)) as [c Hc].
      exists m, s, c. now rewrite Hc.
    + apply Nat.ltb_ge in L. left. split; trivial.
      intros x Hx. pose proof (best_max _ _ _ _ _ E Hx). lia.
  - apply extractOne_none in E. rewrite E. left. split; easy.
Qed.

Lemma group_name_fresh (d : dict) (n : string) :
  ~ In n (keys d) ->
  group_name scorer threshold d n = Some (d ++ [(n, canonical scorer threshold d n)]).
Proof.
  intros F. unfold group_name, canonical.
  destruct d as [|e d'] eqn:Ed; [reflexivity|]. rewrite <- Ed in *.
  destruct (extractOne scorer n (keys d)) as [[m s]|] eqn:E.
  - destruct (threshold <? s).
    + apply extractOne_spec, best_in, dict_get_keys in E as [c ->].
      now rewrite dict_set_fresh.
    + now rewrite dict_set_fresh.
  - apply extractOne_none in E. now rewrite Ed in E.
Qed.

Lemma group_names_from_grouping (names : list string) :
  forall d, grouping scorer threshold d -> NoDup (keys d ++ names) ->
  exists d', group_names_from scorer threshold d names = Some d'
    /\ grouping scorer threshold d' /\ keys d' = keys d ++ names.
Proof.
  induction names as [|n names IH]; intros d G N; simpl.
  - exists d. now rewrite app_nil_r.
  - assert (F : ~ In n (keys d)).
    { intros HI. apply NoDup_remove_2 in N. apply N, in_or_app. now left. }
    rewrite (group_name_fresh d n F).
    destruct (IH (d ++ [(n, canonical scorer threshold d n)])) as (d' & E & G' & K).
    + now constructor.
    + rewrite keys_app. simpl. now rewrite <- app_assoc.
    + exists d'. repeat split; trivial.
      rewrite K, keys_app. simpl. now rewrite <- app_assoc.
Qed.

Lemma group_names_grouping (names : list string) :
  NoDup names ->
  exists d, group_names scorer threshold names = Some d
    /\ grouping scorer threshold d /\ keys d = names.
Proof.
  intros N. apply (group_names_from_grouping names [] (grouping_nil scorer threshold) N).
Qed.


Lemma snoc_split {A : Type} (l : list A) (a : A) (pre : list A) (r : A)
    (post : list A) :
  l ++ [a] = pre ++ r :: post ->
  (post = [] /\ l = pre /\ a = r)
  \/ (exists post', post = post' ++ [a] /\ l = pre ++ r :: post').
Proof.
  destruct post as [|x post _] using rev_ind; intros E.
  - apply app_inj_tail in E as [-> ->]. now left.
  - right. change (pre ++ r :: post ++ [x]) with (pre ++ (r :: post) ++ [x]) in E.
    rewrite app_assoc in E. apply app_inj_tail in E as [-> ->]. eauto.
Qed.

Lemma NoDup_snoc {A : Type} (l : list A) (a : A) :
  NoDup l -> ~ In a l -> NoDup (l ++ [a]).
Proof.
  induction 1 as [|x l Hx N IH]; intros Ha; simpl.
  - repeat constructor. easy.
  - constructor.
    + intros HI. apply in_app_or in HI as [HI|[->|[]]]; [tauto|].
      apply Ha. now left.
    + apply IH. intros HI. apply Ha. now right.
Qed.

Lemma grouping_keys_NoDup (d : dict) :
  grouping scorer threshold d -> NoDup (keys d).
Proof.
  induction 1 as [|d n G IH F]; [constructor|].
  rewrite keys_app. now apply NoDup_snoc.
Qed.

(** Every value of the dictionary is a key that stands for itself. *)
Lemma grouping_value_fixed (d : dict) :
  grouping scorer threshold d ->
  forall n c, dict_get d n = Some c -> dict_get d c = Some c.
Proof.
  induction 1 as [|d x G IH F]; intros n c H; [discriminate|].
  apply dict_get_snoc_inv in H as [H|(_ & -> & ->)].
  - apply dict_get_snoc_old. eauto.
  - destruct (canonical_cases d x) as [[-> _]|(m & s & c & _ & _ & Hm & ->)].
    + now apply dict_get_snoc_new.
    + apply dict_get_snoc_old. eauto.
Qed.

(** A name that stands for itself scored at most the threshold against
    every name before it. *)
Lemma grouping_low (d : dict) :
  grouping scorer threshold d ->
  forall pre r post, keys d = pre ++ r :: post -> dict_get d r = Some r ->
  forall x, In x pre -> scorer r x <= threshold.
Proof.
  induction 1 as [|d n G IH F]; intros pre r post K H x Hx.
  - now destruct pre.
  - rewrite keys_app in K. simpl in K.
    apply snoc_split in K as [(-> & K & ->)|(post' & -> & K)].
    + rewrite <- K in Hx.
      rewrite dict_get_snoc_new in H by assumption. injection H as H.
      destruct (canonical_cases d r) as [[_ L]|(m & s & c & _ & _ & Hm & E)].
      * now apply L.
      * exfalso. apply F, dict_get_keys. exists r.
        apply (grouping_value_fixed d G m). congruence.
    + apply (IH pre r post' K); trivial.
      apply dict_get_snoc_inv in H as [H|(N & _)]; trivial.
      exfalso. apply N. rewrite K. apply in_elt.
Qed.

(** The value of each name, read off the finished dictionary: the name is
    scored against all the names before it. *)
Lemma grouping_step (d : dict) :
  grouping scorer threshold d ->
  forall pre n post, keys d = pre ++ n :: post ->
  dict_get d n =
  match extractOne scorer n pre with
  | Some (m, s) => if threshold <? s then dict_get d m else Some n
  | None => Some n
  end.
Proof.
  induction 1 as [|d x G IH F]; intros pre n post K.
  - now destruct pre.
  - rewrite keys_app in K. simpl in K.
    apply snoc_split in K as [(-> & <- & ->)|(post' & -> & K)].
    + rewrite dict_get_snoc_new by assumption. unfold canonical.
      destruct (extractOne scorer n (keys d)) as [[m s]|] eqn:E; trivial.
      destruct (threshold <? s); trivial.
      apply extractOne_spec, best_in, dict_get_keys in E as [c Hc].
      now rewrite Hc, (dict_get_snoc_old _ _ _ _ _ Hc).
    + assert (Hn : exists v, dict_get d n = Some v).
      { apply dict_get_keys. rewrite K. apply in_elt. }
      destruct Hn as [v Hv]. rewrite (dict_get_snoc_old _ _ _ _ _ Hv).
      rewrite <- Hv, (IH pre n post' K).
      destruct (extractOne scorer n pre) as [[m s]|] eqn:E; trivial.
      destruct (threshold <? s); trivial.
      assert (Hm : exists c, dict_get d m = Some c).
      { apply dict_get_keys. rewrite K. apply in_or_app. left.
        now apply extractOne_spec, best_in in E. }
      destruct Hm as [c Hc]. now rewrite Hc, (dict_get_snoc_old _ _ _ _ _ Hc).
Qed.

End Grouping.

(** ** Values in order of first appearance *)

Lemma filter_absorb {A : Type} (p q : A -> bool) (l : list A) :
  (forall x, p x = true -> q x = true) ->
  filter p (filter q l) = filter p l.
Proof.
  intros H. induction l as [|a l IH]; simpl; trivial.
  destruct (q a) eqn:Q; simpl; rewrite IH; trivial.
  destruct (p a) eqn:P; trivial. rewrite (H a P) in Q. discriminate.
Qed.

Lemma filter_comm {A : Type} (p q : A -> bool) (l : list A) :
  filter p (filter q l) = filter q (filter p l).
Proof.
  induction l as [|a l IH]; simpl; trivial.
  destruct (q a) eqn:Q, (p a) eqn:P; simpl; rewrite ?Q, ?P, IH; trivial.
Qed.

Lemma filter_map_comm {A B : Type} (f : A -> B) (p : B -> bool) (l : list A) :
  filter p (List.map f l) = List.map f (filter (fun x => p (f x)) l).
Proof.
  induction l as [|a l IH]; simpl; trivial.
  destruct (p (f a)); simpl; now rewrite IH.
Qed.

Section Unique.

Context {A : Type} (eqb : A -> A -> bool).
Hypothesis eqb_eq : forall x y, eqb x y = true <-> x = y.

Lemma eqb_same (x : A) : eqb x x = true.
Proof. now apply eqb_eq. Qed.

Lemma existsb_eqb (x : A) (l : list A) : existsb (eqb x) l = true <-> In x l.
Proof.
  rewrite existsb_exists. split.
  - intros (y & Hy & E). apply eqb_eq in E. now subst.
  - intros H. exists x. split; trivial. apply eqb_same.
Qed.

Lemma unique_by_In (x : A) (l : list A) : In x (unique_by eqb l) <-> In x l.
Proof.
  induction l as [|a l IH]; simpl; [tauto|].
  rewrite filter_In, IH. split.
  - tauto.
  - intros [->|H]; [now left|].
    destruct (eqb x a) eqn:E.
    + apply eqb_eq in E. now left.
    + now right.
Qed.

Lemma unique_by_NoDup (l : list A) : NoDup (unique_by eqb l).
Proof.
  induction l as [|a l IH]; simpl; constructor.
  - rewrite filter_In, eqb_same. simpl. intros [_ H]. discriminate.
  - now apply NoDup_filter.
Qed.

Lemma unique_by_filter (p : A -> bool) (l : list A) :
  filter p (unique_by eqb l) = unique_by eqb (filter p l).
Proof.
  induction l as [|a l IH]; simpl; trivial.
  destruct (p a) eqn:P; simpl.
  - now rewrite <- IH, filter_comm.
  - rewrite <- IH. apply filter_absorb.
    intros x Px. destruct (eqb x a) eqn:E; trivial.
    apply eqb_eq in E. congruence.
Qed.

Lemma unique_by_snoc (l : list A) (x : A) :
  unique_by eqb (l ++ [x])
  = unique_by eqb l ++ (if existsb (eqb x) l then [] else [x]).
Proof.
  induction l as [|a l IH]; simpl; trivial.
  rewrite IH, filter_app. f_equal. f_equal.
  destruct (existsb (eqb x) l); simpl.
  - now rewrite orb_true_r.
  - rewrite orb_false_r. now destruct (eqb x a).
Qed.

Lemma unique_by_NoDup_id (l : list A) : NoDup l -> unique_by eqb l = l.
Proof.
  induction 1 as [|a l Ha N IH]; simpl; trivial.
  rewrite IH. f_equal. apply forallb_filter_id, forallb_forall.
  intros x Hx. destruct (eqb x a) eqn:E; trivial.
  apply eqb_eq in E. congruence.
Qed.

End Unique.

Lemma unique_by_map_unique {A B : Type}
    (eqa : A -> A -> bool) (eqb : B -> B -> bool) (f : A -> B) (l : list A) :
  (forall x y, eqa x y = true <-> x = y) ->
  (forall x y, eqb x y = true <-> x = y) ->
  unique_by eqb (List.map f l) = unique_by eqb (List.map f (unique_by eqa l)).
Proof.
  intros Ha Hb. induction l as [|a l IH]; simpl; trivial.
  f_equal. rewrite IH, !(unique_by_filter eqb Hb). f_equal.
  rewrite !filter_map_comm. f_equal.
  symmetry. apply filter_absorb.
  intros x Hx. destruct (eqa x a) eqn:E; trivial.
  apply Ha in E. subst. now rewrite (eqb_same eqb Hb) in Hx.
Qed.

Lemma cell_eqb_eq (x y : cell) : cell_eqb x y = true <-> x = y.
Proof.
  destruct x, y; simpl; try (split; congruence).
  - rewrite String.eqb_eq. split; congruence.
  - rewrite Z.eqb_eq. split; congruence.
Qed.

Lemma unique_map_Str (l : list string) :
  unique (List.map Str l) = List.map Str (unique_by String.eqb l).
Proof.
  unfold unique. induction l as [|a l IH]; simpl; trivial.
  now rewrite IH, filter_map_comm.
Qed.

(** ** Grouping with a scorer that obeys the laws *)

Section Laws.

Variable scorer : scorer_t.
Variable threshold : nat.
Hypothesis laws : scorer_laws scorer.
Hypothesis threshold_lt_100 : threshold < 100.

Lemma score_same_normal (a b : string) : normal a = normal b -> scorer a b = 100.
Proof.
  intros E. rewrite <- (score_normal scorer laws a b), E.
  rewrite (score_normal scorer laws b b). apply (score_refl scorer laws).
Qed.

Lemma score_normal_left (a a' x : string) :
  normal a = normal a' -> scorer a x = scorer a' x.
Proof.
  intros E. rewrite <- (score_normal scorer laws a x), E.
  apply (score_normal scorer laws).
Qed.

Lemma grouping_values_keys (d : dict) :
  grouping scorer threshold d ->
  forall v, In v (List.map snd d) -> In v (keys d).
Proof.
  induction 1 as [|d x G IH F]; intros v Hv; [easy|].
  rewrite map_app in Hv. rewrite keys_app.
  apply in_or_app. apply in_app_or in Hv as [Hv|[<-|[]]]; [left; auto|].
  simpl.
  destruct (canonical_cases scorer threshold d x)
    as [[-> _]|(m & s & c & _ & _ & Hm & ->)]; [right; now left|].
  left. apply dict_get_keys. exists c.
  apply (grouping_value_fixed scorer threshold d G m c Hm).
Qed.

Lemma dict_get_value (d : dict) (k v : string) :
  dict_get d k = Some v -> In v (List.map snd d).
Proof.
  induction d as [|[k' v'] d IH]; simpl; [discriminate|].
  destruct (String.eqb k' k); [|auto].
  intros H; injection H as ->. now left.
Qed.

(** A name whose normal form is that of some canonical name has a canonical
    name of that normal form. *)
Lemma grouping_normal (d : dict) :
  grouping scorer threshold d ->
  forall n r n' r',
    dict_get d n = Some r -> dict_get d n' = Some r' ->
    normal r' = normal n -> normal r = normal n.
Proof.
  induction 1 as [|d x G IH F]; intros n r n' r' H H' E; [discriminate|].
  apply dict_get_snoc_inv in H as [H|(_ & -> & ->)];
    apply dict_get_snoc_inv in H' as [H'|(_ & -> & ->)].
  - eauto.
  - destruct (canonical_cases scorer threshold d x)
      as [[Ex L]|(m & s & c & _ & _ & Hm & Ec)].
    + exfalso. rewrite Ex in E.
      assert (Hn : In n (keys d)) by (apply dict_get_keys; eauto).
      specialize (L n Hn). rewrite (score_same_normal x n E) in L. lia.
    + rewrite Ec in E. eauto.
  - pose proof (grouping_value_fixed scorer threshold d G n' r' H') as Fx.
    assert (Hr : In r' (keys d)) by (apply dict_get_keys; eauto).
    assert (S100 : scorer x r' = 100) by now apply score_same_normal.
    destruct (canonical_cases scorer threshold d x)
      as [[_ L]|(m & s & c & B & Ls & Hm & ->)].
    + specialize (L r' Hr). lia.
    + pose proof (best_max scorer _ _ _ _ r' B Hr) as Hmax.
      destruct B as (l1 & l2 & K & Es & B1 & B2).
      pose proof (score_le_100 scorer laws x m) as Hle.
      rewrite K in Hr. apply in_app_or in Hr as [Hr|[<-|Hr]].
      * specialize (B1 r' Hr). lia.
      * congruence.
      * exfalso. apply in_split in Hr as (l2a & l2b & ->).
        assert (K' : keys d = (l1 ++ m :: l2a) ++ r' :: l2b)
          by (rewrite K, <- app_assoc; reflexivity).
        pose proof (grouping_low scorer threshold d G _ _ _ K' Fx m
                      ltac:(apply in_elt)) as Low.
        rewrite (score_normal_left r' x m E) in Low. lia.
  - congruence.
Qed.

(** The normal forms of the canonical names, in order of first appearance,
    stay apart. *)
Lemma grouping_values_apart (d : dict) :
  grouping scorer threshold d ->
  apart scorer threshold
        (unique_by String.eqb (List.map normal (List.map snd d))).
Proof.
  induction 1 as [|d x G IH F]; [constructor|].
  rewrite !map_app. simpl.
  rewrite (unique_by_snoc String.eqb).
  destruct (existsb _ _) eqn:Ex; [now rewrite app_nil_r|].
  constructor; trivial.
  intros y Hy. apply (proj1 (unique_by_In String.eqb String.eqb_eq _ _)) in Hy.
  apply in_map_iff in Hy as (v & <- & Hv).
  destruct (canonical_cases scorer threshold d x)
    as [[-> L]|(m & s & c & _ & _ & Hm & Ec)].
  - rewrite (score_normal scorer laws).
    apply L, (grouping_values_keys d G v Hv).
  - exfalso. rewrite Ec in Ex.
    assert (HI : In (normal c) (List.map normal (List.map snd d))).
    { apply in_map. eapply dict_get_value. eassumption. }
    apply (proj2 (existsb_eqb String.eqb String.eqb_eq _ _)) in HI. congruence.
Qed.

End Laws.

(** ** Names that stay apart are grouped each under itself *)

Lemma group_names_from_app (scorer : scorer_t) (threshold : nat)
    (l1 l2 : list string) (d : dict) :
  group_names_from scorer threshold d (l1 ++ l2) =
  match group_names_from scorer threshold d l1 with
  | Some d' => group_names_from scorer threshold d' l2
  | None => None
  end.
Proof.
  revert d. induction l1 as [|n l1 IH]; intros d; simpl; trivial.
  destruct (group_name scorer threshold d n); trivial.
Qed.

Lemma keys_identity (l : list string) :
  keys (List.map (fun n => (n, n)) l) = l.
Proof. unfold keys. rewrite map_map. simpl. apply map_id. Qed.

Lemma apart_identity (scorer : scorer_t) (threshold : nat) (l : list string) :
  apart scorer threshold l -> NoDup l ->
  group_names scorer threshold l = Some (List.map (fun n => (n, n)) l).
Proof.
  unfold group_names.
  induction 1 as [|l u Ap IH Low]; intros N; [reflexivity|].
  assert (Nl : NoDup l /\ ~ In u l).
  { apply NoDup_remove in N. rewrite app_nil_r in N. exact N. }
  destruct Nl as [Nl Fu].
  rewrite group_names_from_app, (IH Nl). simpl.
  rewrite group_name_fresh by now rewrite keys_identity.
  rewrite map_app. simpl. do 3 f_equal.
  destruct (canonical_cases scorer threshold (List.map (fun n => (n, n)) l) u)
    as [[E _]|(m & s & c & B & Ls & _ & _)]; [now rewrite E|].
  exfalso. pose proof (best_in scorer _ _ _ _ B) as Hm.
  rewrite keys_identity in Hm. specialize (Low m Hm).
  destruct B as (_ & _ & _ & -> & _). lia.
Qed.

(** ** Data frames *)

Lemma contains_In (l : list string) (x : string) : contains l x = true <-> In x l.
Proof.
  unfold contains. rewrite existsb_exists. split.
  - intros (y & Hy & E). apply String.eqb_eq in E. now subst.
  - intros H. exists x. split; trivial. apply String.eqb_refl.
Qed.

Lemma distinct_NoDup (l : list string) : distinct l = true <-> NoDup l.
Proof.
  induction l as [|x l IH]; simpl.
  - split; [constructor | trivial].
  - rewrite andb_true_iff, negb_true_iff, IH. split.
    + intros [H N]. constructor; trivial.
      rewrite <- contains_In. congruence.
    + intros N. inversion N as [|? ? Hx N']; subst. split; trivial.
      destruct (contains l x) eqn:E; trivial. now apply contains_In in E.
Qed.

Lemma issubset_In (a b : list string) :
  issubset a b = true <-> forall x, In x a -> In x b.
Proof.
  unfold issubset. rewrite forallb_forall.
  split; intros H x Hx; [apply contains_In | apply contains_In]; auto.
Qed.

Lemma get_columns (df : DataFrame) (c : string) :
  In c (columns df) <-> exists col, get df c = Some col.
Proof.
  induction df as [|[c' col'] df IH]; simpl.
  - split; [tauto | intros [col H]; discriminate].
  - destruct (String.eqb_spec c' c) as [->|N].
    + split; eauto.
    + rewrite <- IH. tauto.
Qed.

Lemma get_In (df : DataFrame) (c : string) (col : Series) :
  get df c = Some col -> In (c, col) df.
Proof.
  induction df as [|[c' col'] df IH]; simpl; [discriminate|].
  destruct (String.eqb_spec c' c) as [->|N]; [|auto].
  intros H; injection H as ->. now left.
Qed.

Lemma In_get (df : DataFrame) (c : string) (col : Series) :
  NoDup (columns df) -> In (c, col) df -> get df c = Some col.
Proof.
  induction df as [|[c' col'] df IH]; simpl; [tauto|].
  intros N [H|H]; inversion N as [|? ? Hc N']; subst.
  - injection H as -> ->. now rewrite String.eqb_refl.
  - destruct (String.eqb_spec c' c) as [->|Ne]; [|auto].
    exfalso. apply Hc. change c with (fst (c, col)). now apply in_map.
Qed.

Lemma get_set_same (df : DataFrame) (c : string) (col : Series) :
  get (set_column df c col) c = Some col.
Proof.
  induction df as [|[c' col'] df IH]; simpl.
  - now rewrite String.eqb_refl.
  - destruct (String.eqb c' c) eqn:E; simpl; now rewrite E.
Qed.

Lemma get_set_other (df : DataFrame) (c c' : string) (col : Series) :
  c <> c' -> get (set_column df c col) c' = get df c'.
Proof.
  intros N. induction df as [|[c0 col0] df IH]; simpl.
  - destruct (String.eqb_spec c c'); congruence.
  - destruct (String.eqb_spec c0 c) as [->|N0]; simpl.
    + destruct (String.eqb_spec c c'); congruence.
    + now rewrite IH.
Qed.

Lemma columns_set (df : DataFrame) (c : string) (col : Series) :
  columns (set_column df c col)
  = if contains (columns df) c then columns df else columns df ++ [c].
Proof.
  unfold columns, contains.
  induction df as [|[c0 col0] df IH]; trivial.
  cbn [set_column List.map fst existsb].
  destruct (String.eqb_spec c0 c) as [->|N].
  - now rewrite String.eqb_refl.
  - destruct (String.eqb_spec c c0) as [->|_]; [congruence|].
    cbn [List.map fst orb]. rewrite IH.
    now destruct (existsb (String.eqb c) (List.map fst df)).
Qed.

Lemma NoDup_columns_set (df : DataFrame) (c : string) (col : Series) :
  NoDup (columns df) -> NoDup (columns (set_column df c col)).
Proof.
  intros N. rewrite columns_set.
  destruct (contains (columns df) c) eqn:E; trivial.
  apply NoDup_snoc; trivial. rewrite <- contains_In. congruence.
Qed.

(** ** Text columns *)

Lemma texts_spec (col : Series) (l : list string) :
  texts col = Some l <-> col = List.map Str l.
Proof.
  revert l. induction col as [|c col IH]; intros l; simpl.
  - split; [intros H; now injection H as <- | now destruct l].
  - destruct c as [s| |].
    + destruct (texts col) as [l'|].
      * split.
        -- intros H; injection H as <-. simpl. f_equal. now apply IH.
        -- destruct l as [|s' l]; [discriminate|]. intros H; injection H as -> H.
           apply IH in H. congruence.
      * split; [discriminate|].
        destruct l as [|s' l]; [discriminate|]. intros H; injection H as -> H.
        apply IH in H. discriminate.
    + split; [discriminate | now destruct l].
    + split; [discriminate | now destruct l].
Qed.

Lemma all_text (col : Series) :
  forallb is_str col = true -> exists l, col = List.map Str l.
Proof.
  induction col as [|c col IH]; simpl; [now exists []|].
  rewrite andb_true_iff. intros [Hc H]. destruct (IH H) as [l ->].
  destruct c as [s| |]; try discriminate. now exists (s :: l).
Qed.

Lemma str_method_Str (f : string -> string) (l : list string) :
  str_method f (List.map Str l) = List.map Str (List.map f l).
Proof. unfold str_method. now rewrite !map_map. Qed.

Lemma Series_apply_Str (f : string -> string) (l : list string) :
  Series_apply f (List.map Str l) = Some (List.map Str (List.map f l)).
Proof. induction l as [|s l IH]; simpl; [trivial | now rewrite IH]. Qed.

Lemma text_normal (l : list string) :
  str_capitalize (str_strip (List.map Str l)) = List.map Str (List.map normal l).
Proof.
  unfold str_capitalize, str_strip. rewrite !str_method_Str.
  f_equal. rewrite map_map. reflexivity.
Qed.

Lemma normalize_text (column : string) (l : list string) :
  column <> "Country" -> column <> "State/Province" ->
  normalize_column column (List.map Str l) = Some (List.map Str (List.map normal l)).
Proof.
  intros N1 N2. unfold normalize_column.
  apply String.eqb_neq in N1, N2. rewrite N1, N2, text_normal.
  destruct l as [|s l]; reflexivity.
Qed.

Lemma fillna_text_or_null (col : Series) :
  forallb text_or_null col = true ->
  exists l, fillna "Unknown" col = List.map Str l
    /\ List.map Str (List.map (fun s => expand_state (PyStr.strip s)) l)
       = List.map state_normal col.
Proof.
  induction col as [|c col IH]; simpl; [now exists []|].
  rewrite andb_true_iff. intros [Hc H]. destruct (IH H) as (l & E1 & E2).
  destruct c as [s| |]; try discriminate; simpl.
  - exists (s :: l). simpl. now rewrite E1, E2.
  - exists ("Unknown" :: l). simpl. now rewrite E1, E2.
Qed.

Lemma normalize_state (l : list string) :
  normalize_column "State/Province" (List.map Str l)
  = Some (List.map Str (List.map (fun s => expand_state (PyStr.strip s)) l)).
Proof.
  unfold normalize_column, str_strip.
  rewrite str_method_Str, Series_apply_Str, (map_map PyStr.strip expand_state).
  destruct l as [|s l]; reflexivity.
Qed.

Lemma normalize_column_total (column : string) (col : Series) :
  column <> "State/Province" -> exists col', normalize_column column col = Some col'.
Proof.
  intros N. unfold normalize_column. apply String.eqb_neq in N. rewrite N.
  destruct (dtype_object col && negb (String.eqb column "Country")); eauto.
Qed.

Lemma normalize_country (col : Series) : normalize_column "Country" col = Some col.
Proof. unfold normalize_column. simpl. now rewrite andb_false_r. Qed.

Lemma normalize_columns_get (df df' : DataFrame) (c : string) :
  normalize_columns df = Some df' ->
  get df' c = match get df c with
              | Some col => normalize_column c col
              | None => None
              end.
Proof.
  revert df'. induction df as [|[c0 col0] df IH]; intros df'; simpl.
  - intros H; now injection H as <-.
  - destruct (normalize_column c0 col0) as [col0'|] eqn:E0; [|discriminate].
    destruct (normalize_columns df) as [rest|]; [|discriminate].
    intros H; injection H as <-. simpl.
    destruct (String.eqb_spec c0 c) as [->|N]; [now rewrite E0 | now apply IH].
Qed.

Lemma normalize_columns_total (df : DataFrame) :
  (forall c col, In (c, col) df -> exists col', normalize_column c col = Some col') ->
  exists df', normalize_columns df = Some df'.
Proof.
  induction df as [|[c0 col0] df IH]; intros H; simpl; [eauto|].
  destruct (H c0 col0 (or_introl eq_refl)) as [col0' ->].
  destruct IH as [rest ->]; [intros c col Hc; apply H; now right|]. eauto.
Qed.

(** ** The prepared table *)

Lemma map_dict_Str (d : dict) (raw : list string) :
  (forall n, In n raw -> In n (keys d)) ->
  map_dict d (List.map Str raw) = List.map Str (List.map (representative d) raw).
Proof.
  induction raw as [|n raw IH]; intros H; simpl; trivial.
  rewrite <- IH by (intros m Hm; apply H; now right).
  unfold representative.
  destruct (proj1 (dict_get_keys d n) (H n (or_introl eq_refl))) as [v ->].
  reflexivity.
Qed.

Lemma valid_table_inv (data : DataFrame) :
  valid_table data = true ->
  NoDup (columns data)
  /\ (forall c, In c required_columns -> exists col, get data c = Some col)
  /\ (exists raw, get data "Institution" = Some (List.map Str raw))
  /\ (exists state, get data "State/Province" = Some state
        /\ forallb text_or_null state = true).
Proof.
  unfold valid_table. rewrite !andb_true_iff. intros [[[D S] I] T].
  repeat split.
  - now apply distinct_NoDup.
  - intros c Hc. apply get_columns. revert c Hc. now apply issubset_In.
  - destruct (get data "Institution") as [col|]; [|discriminate].
    destruct (all_text col I) as [raw ->]. eauto.
  - destruct (get data "State/Province") as [col|]; [|discriminate]. eauto.
Qed.

Lemma prepare_valid (scorer : scorer_t) (data : DataFrame) :
  valid_table data = true ->
  exists raw d data', prepared scorer data raw d data'.
Proof.
  intros V. apply valid_table_inv in V as (ND & _ & [raw HI] & (state & HS & TS)).
  destruct (group_names_grouping scorer 87 (unique_by String.eqb raw))
    as (d & Hd & G & K); [apply (unique_by_NoDup String.eqb String.eqb_eq)|].
  set (grouped := map_dict d (List.map Str raw)).
  set (df1 := set_column data "Grouped Institution" grouped).
  set (df2 := set_column df1 "State/Province" (fillna "Unknown" state)).
  destruct (fillna_text_or_null state TS) as (filled & Ef & Es).
  assert (Hg : fuzzy_grouping scorer data "Institution" 87 = Some df1).
  { unfold fuzzy_grouping. rewrite HI, unique_map_Str.
    rewrite (proj2 (texts_spec _ _) eq_refl), Hd. reflexivity. }
  assert (HS1 : get df1 "State/Province" = Some state).
  { unfold df1. rewrite get_set_other; [exact HS | discriminate]. }
  assert (ND2 : NoDup (columns df2)) by (do 2 apply NoDup_columns_set; exact ND).
  assert (HS2 : get df2 "State/Province" = Some (List.map Str filled)).
  { unfold df2. now rewrite get_set_same, Ef. }
  destruct (normalize_columns_total df2) as [data' Hn].
  { intros c col Hc. destruct (String.eqb_spec c "State/Province") as [->|N].
    - apply (In_get df2 _ _ ND2) in Hc. rewrite HS2 in Hc. injection Hc as <-.
      rewrite normalize_state. eauto.
    - now apply normalize_column_total. }
  assert (Hraw : forall n, In n raw -> In n (keys d)).
  { intros n Hn'. rewrite K.
    now apply (unique_by_In String.eqb String.eqb_eq). }
  exists raw, d, data'. split; trivial.
  - intros state' HS'. rewrite HS in HS'. injection HS' as <-. exact Hn.
  - unfold prepare. rewrite Hg, HS1. exact Hn.
  - rewrite (normalize_columns_get _ _ _ Hn). unfold df2, df1.
    rewrite !get_set_other by discriminate. rewrite HI.
    apply normalize_text; discriminate.
  - rewrite (normalize_columns_get _ _ _ Hn). unfold df2, df1.
    rewrite get_set_other by discriminate. rewrite get_set_same.
    unfold grouped. rewrite (map_dict_Str d raw Hraw).
    rewrite normalize_text by discriminate.
    now rewrite (map_map (representative d) normal).
  - intros state' HS'. rewrite HS in HS'. injection HS' as <-.
    rewrite (normalize_columns_get _ _ _ Hn), HS2, normalize_state. now rewrite Es.
  - rewrite (normalize_columns_get _ _ _ Hn). unfold df2, df1.
    rewrite !get_set_other by discriminate.
    destruct (get data "Country"); trivial. apply normalize_country.
  - intros c N1 N2. rewrite (normalize_columns_get _ _ _ Hn). unfold df2, df1.
    rewrite !get_set_other by congruence. reflexivity.
Qed.

(** ** The two tables *)

Lemma mem_cons (y k : cell) (seen : Series) :
  mem y (k :: seen) = cell_eqb y k || mem y seen.
Proof. reflexivity. Qed.

Lemma filter_not_mem_cons (k : cell) (seen u : Series) :
  filter (fun y => negb (mem y (k :: seen))) u
  = filter (fun y => negb (mem y seen)) (filter (fun y => negb (cell_eqb y k)) u).
Proof.
  induction u as [|x u IH]; trivial.
  cbn [filter]. rewrite IH, mem_cons.
  destruct (cell_eqb x k); cbn [negb orb filter]; trivial.
Qed.

Lemma select_first_occurrence_from (seen key : Series) :
  select (first_occurrence seen key) key
  = filter (fun y => negb (mem y seen)) (unique key).
Proof.
  revert seen. induction key as [|k key IH]; intros seen; trivial.
  change (unique (k :: key))
    with (k :: filter (fun y => negb (cell_eqb y k)) (unique key)).
  cbn [first_occurrence select filter].
  rewrite IH, filter_not_mem_cons. now destruct (mem k seen).
Qed.

Lemma select_first_occurrence (key : Series) :
  select (first_occurrence [] key) key = unique key.
Proof.
  rewrite select_first_occurrence_from.
  apply forallb_filter_id, forallb_forall. reflexivity.
Qed.

Lemma positions_nil (i : nat) (k : cell) (col : Series) :
  positions i k col = [] <-> ~ In k col.
Proof.
  revert i. induction col as [|x col IH]; intros i; simpl; [tauto|].
  destruct (cell_eqb x k) eqn:E.
  - apply cell_eqb_eq in E. split; [discriminate | tauto].
  - rewrite IH. split; [|tauto].
    intros H [->|H']; [|tauto].
    rewrite (proj2 (cell_eqb_eq k k) eq_refl) in E. discriminate.
Qed.

Lemma positions_hd (i : nat) (k : cell) (col : Series) (j : nat) (rest : list nat) :
  positions i k col = j :: rest -> i <= j /\ nth_error col (j - i) = Some k.
Proof.
  revert i. induction col as [|x col IH]; intros i; simpl; [discriminate|].
  destruct (cell_eqb x k) eqn:E.
  - apply cell_eqb_eq in E. intros H; injection H as <- _.
    rewrite Nat.sub_diag. simpl. split; [lia | congruence].
  - intros H. apply IH in H as [L H]. split; [lia|].
    replace (j - i) with (S (j - S i)) by lia. exact H.
Qed.

Lemma positions_NoDup (i : nat) (k : cell) (col : Series) (j : nat)
    (rest : list nat) :
  NoDup col -> positions i k col = j :: rest -> rest = [].
Proof.
  intros N. revert i. induction N as [|x col Hx N IH]; intros i; simpl;
    [discriminate|].
  destruct (cell_eqb x k) eqn:E; [|apply IH].
  apply cell_eqb_eq in E. subst x.
  rewrite (proj2 (positions_nil (S i) k col) Hx). congruence.
Qed.

Lemma take_right_merge (ids left_key right_key : Series) (i : nat) :
  NoDup right_key ->
  take_right (merge_left i left_key right_key) ids
  = List.map (fun k => match positions 0 k right_key with
                       | j :: _ => nth j ids NaN
                       | [] => NaN
                       end) left_key.
Proof.
  intros N. revert i. induction left_key as [|k left_key IH]; intros i; trivial.
  cbn [merge_left List.map]. unfold take_right in *.
  rewrite map_app, IH. f_equal.
  destruct (positions 0 k right_key) as [|j rest] eqn:E; trivial.
  apply positions_NoDup in E as ->; trivial.
Qed.

Lemma nth_index (n j : nat) :
  j < n ->
  nth j (List.map (fun i => Num (Z.of_nat i)) (seq 0 n)) NaN = Num (Z.of_nat j).
Proof.
  intros H.
  rewrite (nth_indep _ NaN (Num (Z.of_nat 0)))
    by now rewrite length_map, length_seq.
  rewrite (map_nth (fun i => Num (Z.of_nat i))), seq_nth by assumption.
  reflexivity.
Qed.

Lemma team_id_merge (left_key right_key : Series) :
  NoDup right_key ->
  take_right (merge_left 0 left_key right_key)
             (List.map (fun i => Num (Z.of_nat i)) (seq 0 (length right_key)))
  = List.map (team_id right_key) left_key.
Proof.
  intros N. rewrite take_right_merge by assumption.
  apply map_ext. intros k. unfold team_id.
  destruct (positions 0 k right_key) as [|j rest] eqn:E; trivial.
  apply positions_hd in E as [_ E]. rewrite Nat.sub_0_r in E.
  apply nth_index. apply nth_error_Some. congruence.
Qed.

Lemma team_id_null (names : Series) (k : cell) :
  team_id names k = NaN <-> ~ In k names.
Proof.
  unfold team_id. rewrite <- (positions_nil 0).
  destruct (positions 0 k names); split; congruence.
Qed.

Lemma team_id_row (names : Series) (k id : cell) :
  team_id names k = id -> id <> NaN ->
  exists j, id = Num (Z.of_nat j) /\ nth_error names j = Some k.
Proof.
  unfold team_id. destruct (positions 0 k names) as [|j rest] eqn:E.
  - congruence.
  - intros <- _. exists j. split; trivial.
    apply positions_hd in E as [_ E]. now rewrite Nat.sub_0_r in E.
Qed.

Lemma prepared_required (scorer : scorer_t) (data : DataFrame)
    (raw : list string) (d : dict) (data' : DataFrame) (c : string) :
  valid_table data = true -> prepared scorer data raw d data' ->
  In c required_columns ->
  exists col', get data' c = Some col'
    /\ exists col, get data c = Some col /\
         (c <> "State/Province" -> normalize_column c col = Some col').
Proof.
  intros V P Hc. apply valid_table_inv in V as (_ & R & _).
  destruct (R c Hc) as [col Hcol].
  destruct (String.eqb_spec c "State/Province") as [->|N].
  - exists (List.map state_normal col). split.
    + apply (prep_get_state _ _ _ _ _ P col Hcol).
    + exists col. split; [trivial | congruence].
  - destruct (normalize_column_total c col N) as [col' E].
    exists col'. split; [|eauto].
    rewrite (prep_get_other _ _ _ _ _ P c), Hcol; trivial.
    intros ->. simpl in Hc. intuition discriminate.
Qed.

Lemma populated_raw (data : DataFrame) (raw : list string) :
  get data "Institution" = Some (List.map Str raw) ->
  populated data = true <-> raw <> [].
Proof.
  intros H. unfold populated. rewrite H.
  destruct raw; simpl; split; congruence.
Qed.

(** The names of the institutions of a table with a row are text, so that
    [merge] takes them as a key. *)
Lemma merge_accepts (d : dict) (raw : list string) (left_key : Series) :
  raw <> [] -> merge_refuses left_key (unique (grouped_column d raw)) = false.
Proof.
  destruct raw as [|n raw]; [congruence|]. intros _.
  unfold merge_refuses. apply andb_false_iff. right. reflexivity.
Qed.

(** The two tables of a valid table with a row. *)
Lemma saved_valid (scorer : scorer_t) (data : DataFrame) :
  valid_table data = true -> populated data = true ->
  exists raw d data' institutions teams,
    prepared scorer data raw d data'
    /\ saved data raw d data' institutions teams.
Proof.
  intros V Pop. destruct (prepare_valid scorer data V) as (raw & d & data' & P).
  pose proof (fun c H => prepared_required scorer data raw d data' c V P H) as R.
  destruct (R "City") as (city & Hcity & _); [simpl; tauto|].
  destruct (R "State/Province") as (state & Hstate & _); [simpl; tauto|].
  destruct (R "Country") as (country & Hcountry & _); [simpl; tauto|].
  destruct (R "Team Number") as (number & Hnumber & _); [simpl; tauto|].
  destruct (R "Advisor") as (advisor & Hadvisor & _); [simpl; tauto|].
  destruct (R "Problem") as (problem & Hproblem & _); [simpl; tauto|].
  destruct (R "Ranking") as (ranking & Hranking & _); [simpl; tauto|].
  pose proof (prep_get_grouped _ _ _ _ _ P) as Hg.
  pose proof (prep_get_institution _ _ _ _ _ P) as Hi.
  fold (grouped_column d raw) in Hg.
  apply (populated_raw data raw (prep_institution _ _ _ _ _ P)) in Pop.
  eexists raw, d, data', _, _. split; [exact P|].
  split.
  - unfold unique_institutions. rewrite Hg, Hcity, Hstate, Hcountry.
    reflexivity.
  - unfold team_details.
    rewrite Hnumber, Hadvisor, Hproblem, Hranking, Hi.
    cbn [get String.eqb Ascii.eqb Bool.eqb].
    rewrite select_first_occurrence, (merge_accepts d raw _ Pop).
    reflexivity.
  - cbn. now rewrite select_first_occurrence.
  - cbn. now rewrite select_first_occurrence.
  - intros country' Hc. cbn. do 2 f_equal.
    rewrite (prep_get_country _ _ _ _ _ P) in Hcountry. congruence.
  - cbn. f_equal.
    apply team_id_merge, (unique_by_NoDup cell_eqb cell_eqb_eq).
Qed.

Section Runs.

Variable scorer : scorer_t.
Variable FS : Type.
Variable read_csv : FS -> string -> string + DataFrame.
Variable to_csv : FS -> string -> DataFrame -> FS * ending.

(** The run of [save_csv] on a table with the required columns, along the
    steps that can raise. *)
Lemma save_csv_steps (fs : FS) (file_path : string) (data : DataFrame) :
  read_csv fs file_path = inr data ->
  issubset required_columns (columns data) = true ->
  save_csv scorer FS read_csv to_csv fs file_path
  = match prepare scorer data with
    | None => {| effects := []; disk := fs; outcome := Raised |}
    | Some data' =>
        match unique_institutions data' with
        | None => {| effects := []; disk := fs; outcome := Raised |}
        | Some institutions =>
            match to_csv fs institutions_path institutions with
            | (fs1, Raised) =>
                {| effects := []; disk := fs1; outcome := Raised |}
            | (fs1, Returned) =>
                match team_details data' institutions with
                | None =>
                    {| effects := [ToCsv institutions_path institutions];
                       disk := fs1; outcome := Raised |}
                | Some teams =>
                    match to_csv fs1 teams_path teams with
                    | (fs2, Raised) =>
                        {| effects := [ToCsv institutions_path institutions];
                           disk := fs2; outcome := Raised |}
                    | (fs2, Returned) =>
                        {| effects :=
                             [ ToCsv institutions_path institutions;
                               ToCsv teams_path teams;
                               Print (Files_saved institutions_path teams_path) ];
                           disk := fs2; outcome := Returned |}
                    end
                end
            end
        end
    end.
Proof. intros Hr S. unfold save_csv. now rewrite Hr, S. Qed.

(** The run that writes both tables. *)
Lemma save_csv_writes (fs fs1 fs2 : FS) (file_path : string)
    (data data' institutions teams : DataFrame) :
  read_csv fs file_path = inr data ->
  issubset required_columns (columns data) = true ->
  prepare scorer data = Some data' ->
  unique_institutions data' = Some institutions ->
  team_details data' institutions = Some teams ->
  to_csv fs institutions_path institutions = (fs1, Returned) ->
  to_csv fs1 teams_path teams = (fs2, Returned) ->
  save_csv scorer FS read_csv to_csv fs file_path
  = {| effects := [ ToCsv institutions_path institutions;
                    ToCsv teams_path teams;
                    Print (Files_saved institutions_path teams_path) ];
       disk := fs2; outcome := Returned |}.
Proof.
  intros Hr S P U T W1 W2.
  rewrite (save_csv_steps fs file_path data Hr S), P, U, W1, T, W2.
  reflexivity.
Qed.

(** The same, on a disk that takes both files. *)
Lemma save_csv_tables (fs : FS) (file_path : string)
    (data data' institutions teams : DataFrame) :
  read_csv fs file_path = inr data ->
  issubset required_columns (columns data) = true ->
  prepare scorer data = Some data' ->
  unique_institutions data' = Some institutions ->
  team_details data' institutions = Some teams ->
  takes_both_files to_csv fs ->
  exists fs1 fs2,
    to_csv fs institutions_path institutions = (fs1, Returned)
    /\ to_csv fs1 teams_path teams = (fs2, Returned)
    /\ save_csv scorer FS read_csv to_csv fs file_path
       = {| effects := [ ToCsv institutions_path institutions;
                         ToCsv teams_path teams;
                         Print (Files_saved institutions_path teams_path) ];
            disk := fs2; outcome := Returned |}.
Proof.
  intros Hr S P U T W.
  destruct (W institutions) as (fs1 & W1 & W2).
  destruct (W2 teams) as (fs2 & W2').
  exists fs1, fs2. split; [exact W1|]. split; [exact W2'|].
  now apply (save_csv_writes fs fs1 fs2 file_path data data').
Qed.

(** A valid table with a row, on a disk that takes both files. *)
Lemma save_csv_valid (fs : FS) (file_path : string) (data : DataFrame) :
  read_csv fs file_path = inr data -> valid_table data = true ->
  populated data = true -> takes_both_files to_csv fs ->
  exists raw d data' institutions teams fs1 fs2,
    prepared scorer data raw d data'
    /\ saved data raw d data' institutions teams
    /\ to_csv fs institutions_path institutions = (fs1, Returned)
    /\ to_csv fs1 teams_path teams = (fs2, Returned)
    /\ save_csv scorer FS read_csv to_csv fs file_path
       = {| effects := [ ToCsv institutions_path institutions;
                         ToCsv teams_path teams;
                         Print (Files_saved institutions_path teams_path) ];
            disk := fs2; outcome := Returned |}.
Proof.
  intros Hr V Pop W.
  destruct (saved_valid scorer data V Pop)
    as (raw & d & data' & institutions & teams & P & S).
  destruct (save_csv_tables fs file_path data data' institutions teams)
    as (fs1 & fs2 & W1 & W2 & E); trivial.
  - unfold valid_table in V. rewrite !andb_true_iff in V. tauto.
  - apply (prep_run _ _ _ _ _ P).
  - apply (saved_institutions _ _ _ _ _ _ S).
  - apply (saved_teams _ _ _ _ _ _ S).
  - exists raw, d, data', institutions, teams, fs1, fs2. tauto.
Qed.

End Runs.

Lemma write_file_takes_both_files (fs : files) :
  takes_both_files write_file fs.
Proof.
  intros institutions. eexists. split; [reflexivity|].
  intros teams. eexists. reflexivity.
Qed.

(** * The claims *)

Lemma In_dict_get (d : dict) (k v : string) :
  NoDup (keys d) -> In (k, v) d -> dict_get d k = Some v.
Proof.
  induction d as [|[k' v'] d IH]; simpl; [tauto|].
  intros N [H|H]; inversion N as [|? ? Hk N']; subst.
  - injection H as -> ->. now rewrite String.eqb_refl.
  - destruct (String.eqb_spec k' k) as [->|Ne]; [|auto].
    exfalso. apply Hk. change k with (fst (k, v)). now apply in_map.
Qed.

Lemma dict_get_In (d : dict) (k v : string) :
  dict_get d k = Some v -> In (k, v) d.
Proof.
  induction d as [|[k' v'] d IH]; simpl; [discriminate|].
  destruct (String.eqb_spec k' k) as [->|N]; [|auto].
  intros H; injection H as ->. now left.
Qed.

(** C5.  For every list of distinct names the loop of [fuzzy_grouping] ends
    without an exception, in a dictionary whose keys are the names, in
    order: every name has exactly one entry, and the value of every entry
    is a name that is its own value. *)
Theorem fuzzy_grouping_total (scorer : scorer_t) (threshold : nat)
    (names : list string) :
  NoDup names ->
  exists grouped_names,
    group_names scorer threshold names = Some grouped_names
    /\ keys grouped_names = names
    /\ (forall name, In name names ->
          exists canonical,
            dict_get grouped_names name = Some canonical
            /\ forall c, In (name, c) grouped_names -> c = canonical)
    /\ (forall name canonical,
          dict_get grouped_names name = Some canonical ->
          dict_get grouped_names canonical = Some canonical).
Proof.
  intros N. destruct (group_names_grouping scorer threshold names N)
    as (d & E & G & K).
  exists d. repeat split; trivial.
  - intros name Hn. rewrite <- K in Hn.
    destruct (proj1 (dict_get_keys d name) Hn) as [c Hc].
    exists c. split; trivial. intros c' Hc'.
    apply In_dict_get in Hc'; [congruence|].
    apply (grouping_keys_NoDup scorer threshold d G).
  - apply (grouping_value_fixed scorer threshold d G).
Qed.

Lemma fuzzy_grouping_total_witness :
  NoDup spellings
  /\ exists grouped_names,
       group_names Fuzz.token_sort_ratio 87 spellings = Some grouped_names
       /\ keys grouped_names = spellings
       /\ (forall name, In name spellings ->
             exists canonical,
               dict_get grouped_names name = Some canonical
               /\ forall c, In (name, c) grouped_names -> c = canonical)
       /\ (forall name canonical,
             dict_get grouped_names name = Some canonical ->
             dict_get grouped_names canonical = Some canonical).
Proof.
  assert (N : NoDup spellings).
  { apply distinct_NoDup. reflexivity. }
  split; [exact N|].
  exact (fuzzy_grouping_total Fuzz.token_sort_ratio 87 spellings N).
Defined.

(** C2, as the specification has it, fails: on the three spellings the
    program gives the third name the canonical name of the first, through
    the second, although the third scores 80 against the only name that
    stands for itself; scoring against the representatives only makes it a
    representative of its own. *)
Lemma merged_names_are_scored :
  group_names Fuzz.token_sort_ratio 87 spellings
  = Some [ ("Washington", "Washington"); ("Washingtan", "Washington");
           ("Wachingtan", "Washington") ]
  /\ spec_group_names Fuzz.token_sort_ratio 87 spellings
     = [ ("Washington", "Washington"); ("Washingtan", "Washington");
         ("Wachingtan", "Wachingtan") ]
  /\ Fuzz.token_sort_ratio "Wachingtan" "Washington" = 80
  /\ Fuzz.token_sort_ratio "Wachingtan" "Washingtan" = 90.
Proof. repeat split; vm_compute; reflexivity. Qed.

(** C2, amended.  For every list of distinct names, each name is scored
    against all the names before it, the merged ones as well as the
    representatives: the first name stands for itself; for a later name
    [extractOne] picks the first of the earlier names with the highest
    score, and the name gets the canonical name of that earlier name if the
    score is above 87, and stands for itself otherwise. *)
Theorem fuzzy_grouping_step (scorer : scorer_t)
    (before : list string) (name : string) (after : list string) :
  NoDup (before ++ name :: after) ->
  exists grouped_names,
    group_names scorer 87 (before ++ name :: after) = Some grouped_names
    /\ (before = [] -> dict_get grouped_names name = Some name)
    /\ (before <> [] ->
        exists mtch score,
          extractOne scorer name before = Some (mtch, score)
          /\ best scorer name before mtch score
          /\ In mtch before
          /\ (forall other, In other before -> scorer name other <= score)
          /\ dict_get grouped_names name
             = if 87 <? score then dict_get grouped_names mtch else Some name).
Proof.
  intros N.
  destruct (group_names_grouping scorer 87 _ N) as (d & E & G & K).
  exists d. split; trivial.
  pose proof (grouping_step scorer 87 d G before name after K) as S.
  split.
  - intros ->. exact S.
  - intros Hb.
    destruct (extractOne scorer name before) as [[m s]|] eqn:X.
    + pose proof (extractOne_spec scorer _ _ _ _ X) as B.
      exists m, s. repeat split; trivial.
      * apply (best_in scorer _ _ _ _ B).
      * intros other. apply (best_max scorer _ _ _ _ _ B).
    + now apply extractOne_none in X.
Qed.

Lemma fuzzy_grouping_step_witness :
  NoDup (["Washington"; "Washingtan"] ++ "Wachingtan" :: [])
  /\ exists grouped_names,
       group_names Fuzz.token_sort_ratio 87
                   (["Washington"; "Washingtan"] ++ "Wachingtan" :: [])
       = Some grouped_names
       /\ (["Washington"; "Washingtan"] = [] ->
           dict_get grouped_names "Wachingtan" = Some "Wachingtan")
       /\ (["Washington"; "Washingtan"] <> [] ->
           exists mtch score,
             extractOne Fuzz.token_sort_ratio "Wachingtan"
                        ["Washington"; "Washingtan"] = Some (mtch, score)
             /\ best Fuzz.token_sort_ratio "Wachingtan"
                     ["Washington"; "Washingtan"] mtch score
             /\ In mtch ["Washington"; "Washingtan"]
             /\ (forall other, In other ["Washington"; "Washingtan"] ->
                   Fuzz.token_sort_ratio "Wachingtan" other <= score)
             /\ dict_get grouped_names "Wachingtan"
                = if 87 <? score then dict_get grouped_names mtch
                  else Some "Wachingtan").
Proof.
  assert (N : NoDup (["Washington"; "Washingtan"] ++ "Wachingtan" :: [])).
  { apply distinct_NoDup. reflexivity. }
  split; [exact N|].
  exact (fuzzy_grouping_step Fuzz.token_sort_ratio
           ["Washington"; "Washingtan"] "Wachingtan" [] N).
Defined.

Lemma difference_In (l1 l2 : list string) (c : string) :
  In c (difference l1 l2) <-> In c l1 /\ ~ In c l2.
Proof.
  unfold difference. rewrite filter_In, negb_true_iff.
  pose proof (contains_In l2 c) as CI.
  destruct (contains l2 c); split; intros [H1 H2]; split; trivial.
  - discriminate.
  - exfalso. apply H2, CI. reflexivity.
  - intros H. apply CI in H. discriminate.
Qed.

(** The run on a table that lacks a required column. *)
Lemma save_csv_missing (scorer : scorer_t) (FS : Type)
    (read_csv : FS -> string -> string + DataFrame)
    (to_csv : FS -> string -> DataFrame -> FS * ending)
    (fs : FS) (file_path : string) (data : DataFrame) (c0 : string) :
  read_csv fs file_path = inr data ->
  In c0 required_columns -> ~ In c0 (columns data) ->
  save_csv scorer FS read_csv to_csv fs file_path
  = {| effects := [Print (Missing_required_columns
                            (difference required_columns (columns data)))];
       disk := fs; outcome := Returned |}.
Proof.
  intros Hr Hc0 Nc0. unfold save_csv. rewrite Hr.
  destruct (issubset required_columns (columns data)) eqn:S; trivial.
  exfalso. apply Nc0. apply (proj1 (issubset_In _ _) S c0 Hc0).
Qed.

(** C6.  When the table lacks a required column, [save_csv] prints one
    message, which lists the required columns that the table lacks and no
    other, and does nothing else: no file is written, the disk is as it
    was, and the call returns. *)
Theorem missing_columns_abort (scorer : scorer_t) (FS : Type)
    (read_csv : FS -> string -> string + DataFrame)
    (to_csv : FS -> string -> DataFrame -> FS * ending)
    (fs : FS) (file_path : string) (data : DataFrame) :
  read_csv fs file_path = inr data ->
  (exists c, In c required_columns /\ ~ In c (columns data)) ->
  exists missing_columns,
    save_csv scorer FS read_csv to_csv fs file_path
    = {| effects := [Print (Missing_required_columns missing_columns)];
         disk := fs; outcome := Returned |}
    /\ missing_columns <> []
    /\ forall c, In c missing_columns
                 <-> In c required_columns /\ ~ In c (columns data).
Proof.
  intros Hr (c0 & Hc0 & Nc0).
  exists (difference required_columns (columns data)).
  split; [now apply (save_csv_missing _ _ _ _ _ _ _ c0)|].
  split; [|intros c; apply difference_In].
  intros E.
  assert (H : In c0 (difference required_columns (columns data)))
    by now apply difference_In.
  rewrite E in H. exact H.
Qed.

Lemma missing_columns_abort_witness :
  read_file disk_2015 "short.csv" = inr short_table
  /\ (exists c, In c required_columns /\ ~ In c (columns short_table))
  /\ exists missing_columns,
       save_csv Fuzz.token_sort_ratio files read_file write_file disk_2015
                "short.csv"
       = {| effects := [Print (Missing_required_columns missing_columns)];
            disk := disk_2015; outcome := Returned |}
       /\ missing_columns <> []
       /\ forall c, In c missing_columns
                    <-> In c required_columns /\ ~ In c (columns short_table).
Proof.
  assert (H : exists c, In c required_columns /\ ~ In c (columns short_table)).
  { exists "Ranking". split; [simpl; tauto|].
    rewrite <- contains_In. discriminate. }
  split; [reflexivity|]. split; [exact H|].
  exact (missing_columns_abort Fuzz.token_sort_ratio files read_file write_file
           disk_2015 "short.csv" short_table eq_refl H).
Defined.

Lemma expand_state_known (t full_name : string) :
  String.length (PyStr.upper t) = 2 ->
  dict_get state_abbreviations (PyStr.upper t) = Some full_name ->
  expand_state t = full_name.
Proof.
  intros L H. unfold expand_state. rewrite H.
  unfold PyStr.upper in L. rewrite length_map_string in L. now rewrite L.
Qed.

Lemma expand_state_other (t : string) :
  String.length (PyStr.upper t) <> 2
  \/ dict_get state_abbreviations (PyStr.upper t) = None ->
  expand_state t = t.
Proof.
  unfold expand_state, PyStr.upper. rewrite length_map_string.
  intros [L|H].
  - apply Nat.eqb_neq in L. rewrite L.
    now destruct (dict_get state_abbreviations _).
  - unfold PyStr.upper in H. now rewrite H.
Qed.

(** C8.  In a [State/Province] column of text, each value is trimmed; when
    the trimmed value, in upper case, has two characters and is a key of
    the table of abbreviations, the result is the full name of the state,
    and otherwise it is the trimmed value as it was written.  So "CA" in
    any case gives "California", and "Xx" stays "Xx". *)
Theorem state_abbreviation_expansion (values : list string) :
  exists column,
    normalize_column "State/Province" (List.map Str values) = Some column
    /\ length column = length values
    /\ forall i value, nth_error values i = Some value ->
       exists result,
         nth_error column i = Some (Str result)
         /\ (forall full_name,
               String.length (PyStr.upper (PyStr.strip value)) = 2 ->
               dict_get state_abbreviations (PyStr.upper (PyStr.strip value))
               = Some full_name ->
               result = full_name)
         /\ (String.length (PyStr.upper (PyStr.strip value)) <> 2
             \/ dict_get state_abbreviations (PyStr.upper (PyStr.strip value))
                = None ->
             result = PyStr.strip value)
         /\ (PyStr.upper (PyStr.strip value) = "CA" -> result = "California")
         /\ (PyStr.strip value = "Xx" -> result = "Xx").
Proof.
  eexists. split; [apply normalize_state|].
  split; [now rewrite !length_map|].
  intros i value Hi. exists (expand_state (PyStr.strip value)).
  split; [|repeat split].
  - rewrite !nth_error_map, Hi. reflexivity.
  - intros full_name. apply expand_state_known.
  - apply expand_state_other.
  - intros E. apply expand_state_known; rewrite E; reflexivity.
  - intros E. now rewrite E.
Qed.

Lemma nth_error_fillna (value : string) (col : Series) (i : nat) :
  nth_error col i = Some NaN ->
  nth_error (fillna value col) i = Some (Str value).
Proof. intros H. unfold fillna. now rewrite nth_error_map, H. Qed.

(** C9.  On a valid table, a missing [State/Province] value is the text
    "Unknown" in the table that the loop over the columns receives, that is
    before any value is trimmed, expanded or capitalised, and it is still
    "Unknown" after the loop. *)
Theorem missing_state_unknown (scorer : scorer_t) (data : DataFrame) :
  valid_table data = true ->
  exists grouped state data',
    fuzzy_grouping scorer data "Institution" 87 = Some grouped
    /\ get data "State/Province" = Some state
    /\ prepare scorer data
       = normalize_columns
           (set_column grouped "State/Province" (fillna "Unknown" state))
    /\ prepare scorer data = Some data'
    /\ forall i, nth_error state i = Some NaN ->
         cell_at (set_column grouped "State/Province" (fillna "Unknown" state))
                 "State/Province" i = Some (Str "Unknown")
         /\ cell_at data' "State/Province" i = Some (Str "Unknown").
Proof.
  intros V. destruct (prepare_valid scorer data V) as (raw & d & data' & P).
  apply valid_table_inv in V as (_ & _ & _ & (state & HS & _)).
  eexists _, state, data'.
  split; [apply (prep_grouped _ _ _ _ _ P)|].
  split; [exact HS|].
  split; [now rewrite (prep_run _ _ _ _ _ P), (prep_normalize _ _ _ _ _ P state HS)|].
  split; [apply (prep_run _ _ _ _ _ P)|].
  intros i Hi. unfold cell_at. split.
  - rewrite get_set_same. now apply nth_error_fillna.
  - rewrite (prep_get_state _ _ _ _ _ P state HS), nth_error_map, Hi.
    reflexivity.
Qed.

Lemma missing_state_unknown_witness :
  valid_table teams_2015 = true
  /\ exists grouped state data',
       fuzzy_grouping Fuzz.token_sort_ratio teams_2015 "Institution" 87
       = Some grouped
       /\ get teams_2015 "State/Province" = Some state
       /\ prepare Fuzz.token_sort_ratio teams_2015
          = normalize_columns
              (set_column grouped "State/Province" (fillna "Unknown" state))
       /\ prepare Fuzz.token_sort_ratio teams_2015 = Some data'
       /\ forall i, nth_error state i = Some NaN ->
            cell_at (set_column grouped "State/Province"
                                (fillna "Unknown" state))
                    "State/Province" i = Some (Str "Unknown")
            /\ cell_at data' "State/Province" i = Some (Str "Unknown").
Proof.
  split; [reflexivity|].
  exact (missing_state_unknown Fuzz.token_sort_ratio teams_2015 eq_refl).
Defined.

(** C10.  On a valid table with a row, read on a disk that takes both
    files, the loop over the columns leaves [Country] as it is in the
    input, while every other column of text is trimmed and capitalised,
    [State/Province] being trimmed and expanded instead; the [Country]
    column of the institutions written is made of the input values, those
    of the rows kept, unchanged. *)
Theorem country_untouched (scorer : scorer_t) (FS : Type)
    (read_csv : FS -> string -> string + DataFrame)
    (to_csv : FS -> string -> DataFrame -> FS * ending)
    (fs : FS) (file_path : string) (data : DataFrame) :
  read_csv fs file_path = inr data -> valid_table data = true ->
  populated data = true -> takes_both_files to_csv fs ->
  exists grouped state country data' institutions teams names fs1 fs2,
    fuzzy_grouping scorer data "Institution" 87 = Some grouped
    /\ get data "State/Province" = Some state
    /\ get data "Country" = Some country
    /\ normalize_columns
         (set_column grouped "State/Province" (fillna "Unknown" state))
       = Some data'
    /\ get data' "Country" = Some country
    /\ (forall c col,
          get (set_column grouped "State/Province" (fillna "Unknown" state)) c
          = Some col ->
          dtype_object col = true ->
          c <> "Country" -> c <> "State/Province" ->
          get data' c = Some (str_capitalize (str_strip col)))
    /\ get data' "State/Province" = Some (List.map state_normal state)
    /\ to_csv fs institutions_path institutions = (fs1, Returned)
    /\ to_csv fs1 teams_path teams = (fs2, Returned)
    /\ save_csv scorer FS read_csv to_csv fs file_path
       = {| effects := [ ToCsv institutions_path institutions;
                         ToCsv teams_path teams;
                         Print (Files_saved institutions_path teams_path) ];
            disk := fs2; outcome := Returned |}
    /\ get data' "Grouped Institution" = Some names
    /\ get institutions "Country"
       = Some (select (first_occurrence [] names) country).
Proof.
  intros Hr V Pop W.
  destruct (save_csv_valid scorer FS read_csv to_csv fs file_path data Hr V Pop W)
    as (raw & d & data' & institutions & teams & fs1 & fs2 & P & S & W1 & W2 & E).
  apply valid_table_inv in V as (_ & R & _ & (state & HS & _)).
  destruct (R "Country") as [country HC]; [simpl; tauto|].
  pose proof (prep_normalize _ _ _ _ _ P state HS) as Hn.
  eexists _, state, country, data', institutions, teams, _, fs1, fs2.
  split; [apply (prep_grouped _ _ _ _ _ P)|].
  split; [exact HS|]. split; [exact HC|]. split; [exact Hn|].
  split; [now rewrite (prep_get_country _ _ _ _ _ P)|].
  split.
  { intros c col Hc O N1 N2.
    rewrite (normalize_columns_get _ _ _ Hn), Hc. unfold normalize_column.
    apply String.eqb_neq in N1, N2. now rewrite O, N1, N2. }
  split; [apply (prep_get_state _ _ _ _ _ P state HS)|].
  split; [exact W1|]. split; [exact W2|]. split; [exact E|].
  split; [apply (prep_get_grouped _ _ _ _ _ P)|].
  apply (saved_country _ _ _ _ _ _ S country HC).
Qed.

Lemma country_untouched_witness :
  read_file disk_2015 "data/2015.csv" = inr teams_2015
  /\ valid_table teams_2015 = true
  /\ populated teams_2015 = true
  /\ takes_both_files write_file disk_2015
  /\ exists grouped state country data' institutions teams names fs1 fs2,
       fuzzy_grouping Fuzz.token_sort_ratio teams_2015 "Institution" 87
       = Some grouped
       /\ get teams_2015 "State/Province" = Some state
       /\ get teams_2015 "Country" = Some country
       /\ normalize_columns
            (set_column grouped "State/Province" (fillna "Unknown" state))
          = Some data'
       /\ get data' "Country" = Some country
       /\ (forall c col,
             get (set_column grouped "State/Province" (fillna "Unknown" state)) c
             = Some col ->
             dtype_object col = true ->
             c <> "Country" -> c <> "State/Province" ->
             get data' c = Some (str_capitalize (str_strip col)))
       /\ get data' "State/Province" = Some (List.map state_normal state)
       /\ write_file disk_2015 institutions_path institutions = (fs1, Returned)
       /\ write_file fs1 teams_path teams = (fs2, Returned)
       /\ save_csv Fuzz.token_sort_ratio files read_file write_file disk_2015
                   "data/2015.csv"
          = {| effects := [ ToCsv institutions_path institutions;
                            ToCsv teams_path teams;
                            Print (Files_saved institutions_path teams_path) ];
               disk := fs2; outcome := Returned |}
       /\ get data' "Grouped Institution" = Some names
       /\ get institutions "Country"
          = Some (select (first_occurrence [] names) country).
Proof.
  split; [reflexivity|]. split; [reflexivity|]. split; [reflexivity|].
  split; [apply write_file_takes_both_files|].
  exact (country_untouched Fuzz.token_sort_ratio files read_file write_file
           disk_2015 "data/2015.csv" teams_2015 eq_refl eq_refl eq_refl
           (write_file_takes_both_files disk_2015)).
Defined.

Lemma In_grouped_column (d : dict) (raw : list string) (n : string) :
  (forall m, In m raw -> In m (keys d)) ->
  In (Str n) (grouped_column d raw) ->
  exists m r, In m raw /\ dict_get d m = Some r /\ normal r = n.
Proof.
  intros K H. unfold grouped_column in H.
  apply in_map_iff in H as (x & E & H). injection E as <-.
  apply in_map_iff in H as (m & <- & Hm).
  destruct (proj1 (dict_get_keys d m) (K m Hm)) as [r Hr].
  exists m, r. unfold representative. now rewrite Hr.
Qed.

Lemma prepared_raw_keys (scorer : scorer_t) (data : DataFrame)
    (raw : list string) (d : dict) (data' : DataFrame) :
  prepared scorer data raw d data' -> forall m, In m raw -> In m (keys d).
Proof.
  intros P m Hm. rewrite (prep_keys _ _ _ _ _ P).
  now apply (unique_by_In String.eqb String.eqb_eq).
Qed.

(** C3.  On a valid table with a row, read on a disk that takes both
    files, the team row of each input row has an identifier that is not
    null exactly when the trimmed and capitalised institution name of the
    row is the name of some row of the institutions; and, with a scorer
    that obeys the laws, when the grouper gave the name a canonical name
    whose normal form differs from that of the name itself, the identifier
    is null.  The names the grouper works on are the names of the column in
    order of first appearance. *)
Theorem team_id_follows_raw_name (scorer : scorer_t) (FS : Type)
    (read_csv : FS -> string -> string + DataFrame)
    (to_csv : FS -> string -> DataFrame -> FS * ending)
    (fs : FS) (file_path : string) (data : DataFrame) :
  read_csv fs file_path = inr data -> valid_table data = true ->
  populated data = true -> takes_both_files to_csv fs ->
  exists raw grouped_names institutions teams names ids fs1 fs2,
    get data "Institution" = Some (List.map Str raw)
    /\ group_names scorer 87 (unique_by String.eqb raw) = Some grouped_names
    /\ to_csv fs institutions_path institutions = (fs1, Returned)
    /\ to_csv fs1 teams_path teams = (fs2, Returned)
    /\ save_csv scorer FS read_csv to_csv fs file_path
       = {| effects := [ ToCsv institutions_path institutions;
                         ToCsv teams_path teams;
                         Print (Files_saved institutions_path teams_path) ];
            disk := fs2; outcome := Returned |}
    /\ get institutions "Institution Name" = Some names
    /\ get teams "Institution ID" = Some ids
    /\ length ids = length raw
    /\ forall i name id,
         nth_error raw i = Some name -> nth_error ids i = Some id ->
         (id <> NaN <-> exists j, nth_error names j = Some (Str (normal name)))
         /\ (scorer_laws scorer ->
             forall canonical,
               dict_get grouped_names name = Some canonical ->
               normal canonical <> normal name -> id = NaN).
Proof.
  intros Hr V Pop W.
  destruct (save_csv_valid scorer FS read_csv to_csv fs file_path data Hr V Pop W)
    as (raw & d & data' & institutions & teams & fs1 & fs2 & P & S & W1 & W2 & E).
  exists raw, d, institutions, teams, (unique (grouped_column d raw)),
    (List.map (team_id (unique (grouped_column d raw)))
              (List.map Str (List.map normal raw))), fs1, fs2.
  split; [apply (prep_institution _ _ _ _ _ P)|].
  split; [apply (prep_names _ _ _ _ _ P)|].
  split; [exact W1|]. split; [exact W2|]. split; [exact E|].
  split; [apply (saved_names _ _ _ _ _ _ S)|].
  split; [apply (saved_team_ids _ _ _ _ _ _ S)|].
  split; [now rewrite !length_map|].
  intros i name id Hi Hid.
  rewrite !nth_error_map, Hi in Hid. injection Hid as Hid.
  split; [split|].
  - intros N. destruct (team_id_row _ _ _ Hid N) as (j & _ & Hj). eauto.
  - intros [j Hj] En. rewrite En in Hid.
    apply team_id_null in Hid. apply Hid. eapply nth_error_In, Hj.
  - intros L canonical Hc N. rewrite <- Hid. apply team_id_null.
    intros HI. apply (proj1 (unique_by_In cell_eqb cell_eqb_eq _ _)) in HI.
    apply In_grouped_column in HI as (m & r & _ & Hm & En);
      [|apply (prepared_raw_keys _ _ _ _ _ P)].
    apply N.
    apply (grouping_normal scorer 87 L ltac:(lia) d (prep_grouping _ _ _ _ _ P)
             name canonical m r Hc Hm En).
Qed.

Lemma team_id_follows_raw_name_witness :
  scorer_laws Fuzz.token_sort_ratio
  /\ read_file disk_2015 "data/2015.csv" = inr teams_2015
  /\ valid_table teams_2015 = true
  /\ populated teams_2015 = true
  /\ takes_both_files write_file disk_2015
  /\ exists raw grouped_names institutions teams names ids fs1 fs2,
       get teams_2015 "Institution" = Some (List.map Str raw)
       /\ group_names Fuzz.token_sort_ratio 87 (unique_by String.eqb raw)
          = Some grouped_names
       /\ write_file disk_2015 institutions_path institutions = (fs1, Returned)
       /\ write_file fs1 teams_path teams = (fs2, Returned)
       /\ save_csv Fuzz.token_sort_ratio files read_file write_file disk_2015
                   "data/2015.csv"
          = {| effects := [ ToCsv institutions_path institutions;
                            ToCsv teams_path teams;
                            Print (Files_saved institutions_path teams_path) ];
               disk := fs2; outcome := Returned |}
       /\ get institutions "Institution Name" = Some names
       /\ get teams "Institution ID" = Some ids
       /\ length ids = length raw
       /\ forall i name id,
            nth_error raw i = Some name -> nth_error ids i = Some id ->
            (id <> NaN <-> exists j, nth_error names j = Some (Str (normal name)))
            /\ (scorer_laws Fuzz.token_sort_ratio ->
                forall canonical,
                  dict_get grouped_names name = Some canonical ->
                  normal canonical <> normal name -> id = NaN).
Proof.
  split; [exact token_sort_ratio_laws|].
  split; [reflexivity|]. split; [reflexivity|]. split; [reflexivity|].
  split; [apply write_file_takes_both_files|].
  exact (team_id_follows_raw_name Fuzz.token_sort_ratio files read_file
           write_file disk_2015 "data/2015.csv" teams_2015 eq_refl eq_refl
           eq_refl (write_file_takes_both_files disk_2015)).
Defined.

Lemma nth_error_index (n j : nat) (id : cell) :
  nth_error (List.map (fun i => Num (Z.of_nat i)) (seq 0 n)) j = Some id
  <-> j < n /\ id = Num (Z.of_nat j).
Proof.
  rewrite nth_error_map. split.
  - destruct (nth_error (seq 0 n) j) as [i|] eqn:E; [|discriminate].
    intros H; injection H as <-.
    assert (Hj : j < n).
    { rewrite <- (length_seq n 0). apply nth_error_Some. congruence. }
    split; trivial.
    apply (nth_error_nth _ _ 0) in E. rewrite seq_nth in E by assumption.
    now subst.
  - intros [Hj ->].
    rewrite (@nth_error_nth' _ (seq 0 n) j 0) by now rewrite length_seq.
    now rewrite seq_nth.
Qed.

(** C4.  On a valid table with a row, read on a disk that takes both
    files, the institutions written have one row for each value of the
    [Grouped Institution] column of the prepared table, in order of first
    appearance and without repetition; their identifiers are 0, 1, ...,
    n-1 in this order; and every identifier of a team row is null or is the
    identifier of exactly one row of the institutions. *)
Theorem dimension_is_dense (scorer : scorer_t) (FS : Type)
    (read_csv : FS -> string -> string + DataFrame)
    (to_csv : FS -> string -> DataFrame -> FS * ending)
    (fs : FS) (file_path : string) (data : DataFrame) :
  read_csv fs file_path = inr data -> valid_table data = true ->
  populated data = true -> takes_both_files to_csv fs ->
  exists data' grouped institutions teams names ids team_ids fs1 fs2,
    prepare scorer data = Some data'
    /\ get data' "Grouped Institution" = Some grouped
    /\ to_csv fs institutions_path institutions = (fs1, Returned)
    /\ to_csv fs1 teams_path teams = (fs2, Returned)
    /\ save_csv scorer FS read_csv to_csv fs file_path
       = {| effects := [ ToCsv institutions_path institutions;
                         ToCsv teams_path teams;
                         Print (Files_saved institutions_path teams_path) ];
            disk := fs2; outcome := Returned |}
    /\ get institutions "Institution Name" = Some names
    /\ get institutions "Institution ID" = Some ids
    /\ get teams "Institution ID" = Some team_ids
    /\ names = unique grouped
    /\ NoDup names
    /\ (forall name, In name names <-> In name grouped)
    /\ ids = List.map (fun i => Num (Z.of_nat i)) (seq 0 (length names))
    /\ forall id, In id team_ids ->
         id = NaN
         \/ exists j, nth_error ids j = Some id
                      /\ forall j', nth_error ids j' = Some id -> j' = j.
Proof.
  intros Hr V Pop W.
  destruct (save_csv_valid scorer FS read_csv to_csv fs file_path data Hr V Pop W)
    as (raw & d & data' & institutions & teams & fs1 & fs2 & P & S & W1 & W2 & E).
  eexists data', (grouped_column d raw), institutions, teams,
    (unique (grouped_column d raw)), _, _, fs1, fs2.
  split; [apply (prep_run _ _ _ _ _ P)|].
  split; [apply (prep_get_grouped _ _ _ _ _ P)|].
  split; [exact W1|]. split; [exact W2|]. split; [exact E|].
  split; [apply (saved_names _ _ _ _ _ _ S)|].
  split; [apply (saved_ids _ _ _ _ _ _ S)|].
  split; [apply (saved_team_ids _ _ _ _ _ _ S)|].
  split; [reflexivity|].
  split; [apply (unique_by_NoDup cell_eqb cell_eqb_eq)|].
  split; [intros name; apply (unique_by_In cell_eqb cell_eqb_eq)|].
  split; [reflexivity|].
  intros id Hid. apply in_map_iff in Hid as (k & Hid & _).
  destruct id as [s|z|]; [| |now left]; right.
  - unfold team_id in Hid. now destruct (positions 0 k _).
  - destruct (team_id_row _ _ _ Hid ltac:(discriminate)) as (j & Ej & Hj).
    exists j. split.
    + apply nth_error_index. split; trivial.
      apply nth_error_Some. congruence.
    + intros j' Hj'. apply nth_error_index in Hj' as [_ E'].
      rewrite Ej in E'. injection E' as E'. lia.
Qed.

Lemma dimension_is_dense_witness :
  read_file disk_2015 "data/2015.csv" = inr teams_2015
  /\ valid_table teams_2015 = true
  /\ populated teams_2015 = true
  /\ takes_both_files write_file disk_2015
  /\ exists data' grouped institutions teams names ids team_ids fs1 fs2,
       prepare Fuzz.token_sort_ratio teams_2015 = Some data'
       /\ get data' "Grouped Institution" = Some grouped
       /\ write_file disk_2015 institutions_path institutions = (fs1, Returned)
       /\ write_file fs1 teams_path teams = (fs2, Returned)
       /\ save_csv Fuzz.token_sort_ratio files read_file write_file disk_2015
                   "data/2015.csv"
          = {| effects := [ ToCsv institutions_path institutions;
                            ToCsv teams_path teams;
                            Print (Files_saved institutions_path teams_path) ];
               disk := fs2; outcome := Returned |}
       /\ get institutions "Institution Name" = Some names
       /\ get institutions "Institution ID" = Some ids
       /\ get teams "Institution ID" = Some team_ids
       /\ names = unique grouped
       /\ NoDup names
       /\ (forall name, In name names <-> In name grouped)
       /\ ids = List.map (fun i => Num (Z.of_nat i)) (seq 0 (length names))
       /\ forall id, In id team_ids ->
            id = NaN
            \/ exists j, nth_error ids j = Some id
                         /\ forall j', nth_error ids j' = Some id -> j' = j.
Proof.
  split; [reflexivity|]. split; [reflexivity|]. split; [reflexivity|].
  split; [apply write_file_takes_both_files|].
  exact (dimension_is_dense Fuzz.token_sort_ratio files read_file write_file
           disk_2015 "data/2015.csv" teams_2015 eq_refl eq_refl eq_refl
           (write_file_takes_both_files disk_2015)).
Defined.

Lemma representative_keys (d : dict) :
  NoDup (keys d) -> List.map (representative d) (keys d) = List.map snd d.
Proof.
  induction d as [|[k v] d IH]; simpl; trivial.
  intros N. inversion N as [|? ? Hk N']; subst.
  unfold representative at 1. simpl. rewrite String.eqb_refl. f_equal.
  rewrite <- (IH N'). apply map_ext_in. intros k' Hk'.
  unfold representative. simpl.
  destruct (String.eqb_spec k k') as [->|_]; [tauto | reflexivity].
Qed.

Lemma representative_identity (l : list string) (n : string) :
  representative (List.map (fun n => (n, n)) l) n = n.
Proof.
  unfold representative. induction l as [|m l IH]; simpl; trivial.
  destruct (String.eqb_spec m n) as [->|_]; trivial.
Qed.

(** The names of the institutions, as text. *)
Lemma grouped_names_apart (scorer : scorer_t) (data : DataFrame)
    (raw : list string) (d : dict) (data' : DataFrame) :
  scorer_laws scorer -> prepared scorer data raw d data' ->
  exists names,
    unique (grouped_column d raw) = List.map Str names
    /\ NoDup names
    /\ apart scorer 87 names
    /\ forall n, In n names -> normal n = n.
Proof.
  intros L P.
  exists (unique_by String.eqb
            (List.map (fun n => normal (representative d n)) raw)).
  split; [apply unique_map_Str|].
  split; [apply (unique_by_NoDup String.eqb String.eqb_eq)|].
  split.
  - rewrite (unique_by_map_unique String.eqb String.eqb _ raw
               String.eqb_eq String.eqb_eq).
    rewrite <- (prep_keys _ _ _ _ _ P).
    rewrite <- (map_map (representative d) normal).
    rewrite representative_keys
      by apply (grouping_keys_NoDup scorer 87 d (prep_grouping _ _ _ _ _ P)).
    apply (grouping_values_apart scorer 87 L d (prep_grouping _ _ _ _ _ P)).
  - intros n Hn. apply (proj1 (unique_by_In String.eqb String.eqb_eq _ _)) in Hn.
    apply in_map_iff in Hn as (m & <- & _). apply normal_idem.
Qed.

(** A table that has no column of its own among the required ones, beside
    those of the institutions, is stopped at the check of the columns. *)
Lemma institutions_columns_rejected (scorer : scorer_t) (FS : Type)
    (read_csv : FS -> string -> string + DataFrame)
    (to_csv : FS -> string -> DataFrame -> FS * ending)
    (fs : FS) (path : string) (again : DataFrame) :
  read_csv fs path = inr again ->
  (forall c, In c (columns again) ->
             In c [ "Institution ID"; "Institution Name"; "City";
                    "State/Province"; "Country" ]
             \/ ~ In c required_columns) ->
  exists missing_columns,
    save_csv scorer FS read_csv to_csv fs path
    = {| effects := [Print (Missing_required_columns missing_columns)];
         disk := fs; outcome := Returned |}
    /\ (forall c, In c missing_columns
                  <-> In c required_columns /\ ~ In c (columns again))
    /\ forall c, In c [ "Institution"; "Team Number"; "Advisor"; "Problem";
                        "Ranking" ] ->
                 In c missing_columns.
Proof.
  intros Hr Hc.
  assert (M : forall c, In c [ "Institution"; "Team Number"; "Advisor";
                               "Problem"; "Ranking" ] ->
                        In c required_columns /\ ~ In c (columns again)).
  { intros c H. assert (R : In c required_columns) by (simpl in *; tauto).
    split; trivial. intros Hin. destruct (Hc c Hin) as [H'|H']; [|tauto].
    simpl in H, H'.
    repeat match goal with
           | D : _ \/ _ |- _ => destruct D
           | D : False |- _ => destruct D
           end; subst; discriminate. }
  exists (difference required_columns (columns again)).
  split; [|split].
  - apply (save_csv_missing _ _ _ _ _ _ _ "Institution"); trivial.
    + simpl; tauto.
    + apply M. simpl; tauto.
  - intros c. apply difference_In.
  - intros c H. apply difference_In. now apply M.
Qed.

(** C7, as the specification has it, fails: the institutions file has none
    of the columns [Institution], [Team Number], [Advisor], [Problem] and
    [Ranking], so that [save_csv], run on the file it has just written,
    turns it down at the check of the columns and groups nothing. *)
Lemma institutions_file_is_turned_down :
  save_csv Fuzz.token_sort_ratio files read_file write_file disk_2015
           "data/2015.csv"
  = {| effects := [ ToCsv institutions_path institutions_2015;
                    ToCsv teams_path team_details_2015;
                    Print (Files_saved institutions_path teams_path) ];
       disk := disk_saved_2015; outcome := Returned |}
  /\ read_file disk_saved_2015 institutions_path = inr institutions_2015
  /\ save_csv Fuzz.token_sort_ratio files read_file write_file disk_saved_2015
              institutions_path
     = {| effects := [ Print (Missing_required_columns
                                [ "Institution"; "Team Number"; "Advisor";
                                  "Problem"; "Ranking" ]) ];
          disk := disk_saved_2015; outcome := Returned |}.
Proof. repeat split; vm_compute; reflexivity. Qed.

(** C7, amended.  On a valid table with a row, read on a disk that takes
    both files, with a scorer that obeys the laws, take the names of the
    institutions written as the [Institution] column of any table:
    [fuzzy_grouping] groups each of them under itself, the column [Grouped
    Institution] it adds being the column of the names, and the
    normalisation of the columns changes none of them.  [save_csv] itself
    turns the institutions down: on any table whose columns are columns of
    the institutions written, or are no required columns, it prints the
    message of the missing columns, [Institution], [Team Number],
    [Advisor], [Problem] and [Ranking] among them, writes nothing and
    returns. *)
Theorem canonical_names_regroup (scorer : scorer_t) (FS : Type)
    (read_csv : FS -> string -> string + DataFrame)
    (to_csv : FS -> string -> DataFrame -> FS * ending)
    (fs : FS) (file_path : string) (data : DataFrame) :
  scorer_laws scorer ->
  read_csv fs file_path = inr data -> valid_table data = true ->
  populated data = true -> takes_both_files to_csv fs ->
  exists institutions teams names fs1 fs2,
    to_csv fs institutions_path institutions = (fs1, Returned)
    /\ to_csv fs1 teams_path teams = (fs2, Returned)
    /\ save_csv scorer FS read_csv to_csv fs file_path
       = {| effects := [ ToCsv institutions_path institutions;
                         ToCsv teams_path teams;
                         Print (Files_saved institutions_path teams_path) ];
            disk := fs2; outcome := Returned |}
    /\ get institutions "Institution Name" = Some names
    /\ (forall again,
          get again "Institution" = Some names ->
          fuzzy_grouping scorer again "Institution" 87
          = Some (set_column again "Grouped Institution" names))
    /\ normalize_column "Institution" names = Some names
    /\ normalize_column "Grouped Institution" names = Some names
    /\ columns institutions
       = [ "Institution ID"; "Institution Name"; "City"; "State/Province";
           "Country" ]
    /\ forall fs' path again,
         read_csv fs' path = inr again ->
         (forall c, In c (columns again) ->
                    In c (columns institutions) \/ ~ In c required_columns) ->
         exists missing_columns,
           save_csv scorer FS read_csv to_csv fs' path
           = {| effects := [Print (Missing_required_columns missing_columns)];
                disk := fs'; outcome := Returned |}
           /\ (forall c, In c missing_columns
                         <-> In c required_columns /\ ~ In c (columns again))
           /\ forall c, In c [ "Institution"; "Team Number"; "Advisor";
                               "Problem"; "Ranking" ] ->
                        In c missing_columns.
Proof.
  intros L Hr V Pop W.
  destruct (save_csv_valid scorer FS read_csv to_csv fs file_path data Hr V Pop W)
    as (raw & d & data' & institutions & teams & fs1 & fs2 & P & S & W1 & W2 & E).
  destruct (grouped_names_apart scorer data raw d data' L P)
    as (names & En & N & A & F).
  assert (C : columns institutions
              = [ "Institution ID"; "Institution Name"; "City";
                  "State/Province"; "Country" ]).
  { pose proof (saved_institutions _ _ _ _ _ _ S) as U.
    unfold unique_institutions in U.
    destruct (get data' "Grouped Institution"); [|discriminate].
    destruct (get data' "City"); [|discriminate].
    destruct (get data' "State/Province"); [|discriminate].
    destruct (get data' "Country"); [|discriminate].
    now injection U as <-. }
  exists institutions, teams, (List.map Str names), fs1, fs2.
  split; [exact W1|]. split; [exact W2|]. split; [exact E|].
  split; [rewrite <- En; apply (saved_names _ _ _ _ _ _ S)|].
  assert (Fm : List.map normal names = names).
  { transitivity (List.map (fun n : string => n) names); [|apply map_id].
    now apply map_ext_in. }
  split; [|split; [|split; [|split]]].
  - intros again Ha. unfold fuzzy_grouping.
    rewrite Ha, unique_map_Str.
    rewrite (unique_by_NoDup_id String.eqb String.eqb_eq names N).
    rewrite (proj2 (texts_spec _ _) eq_refl).
    rewrite (apart_identity scorer 87 names A N).
    rewrite map_dict_Str by (intros n Hn; now rewrite keys_identity).
    do 3 f_equal.
    transitivity (List.map (fun n : string => n) names); [|apply map_id].
    apply map_ext, representative_identity.
  - rewrite normalize_text, ?Fm; trivial; discriminate.
  - rewrite normalize_text, ?Fm; trivial; discriminate.
  - exact C.
  - intros fs' path again Ha Hc. rewrite C in Hc.
    now apply institutions_columns_rejected.
Qed.

Lemma canonical_names_regroup_witness :
  scorer_laws Fuzz.token_sort_ratio
  /\ read_file disk_2015 "data/2015.csv" = inr teams_2015
  /\ valid_table teams_2015 = true
  /\ populated teams_2015 = true
  /\ takes_both_files write_file disk_2015
  /\ exists institutions teams names fs1 fs2,
       write_file disk_2015 institutions_path institutions = (fs1, Returned)
       /\ write_file fs1 teams_path teams = (fs2, Returned)
       /\ save_csv Fuzz.token_sort_ratio files read_file write_file disk_2015
                   "data/2015.csv"
          = {| effects := [ ToCsv institutions_path institutions;
                            ToCsv teams_path teams;
                            Print (Files_saved institutions_path teams_path) ];
               disk := fs2; outcome := Returned |}
       /\ get institutions "Institution Name" = Some names
       /\ (forall again,
             get again "Institution" = Some names ->
             fuzzy_grouping Fuzz.token_sort_ratio again "Institution" 87
             = Some (set_column again "Grouped Institution" names))
       /\ normalize_column "Institution" names = Some names
       /\ normalize_column "Grouped Institution" names = Some names
       /\ columns institutions
          = [ "Institution ID"; "Institution Name"; "City"; "State/Province";
              "Country" ]
       /\ forall fs' path again,
            read_file fs' path = inr again ->
            (forall c, In c (columns again) ->
                       In c (columns institutions) \/ ~ In c required_columns) ->
            exists missing_columns,
              save_csv Fuzz.token_sort_ratio files read_file write_file fs' path
              = {| effects := [Print (Missing_required_columns missing_columns)];
                   disk := fs'; outcome := Returned |}
              /\ (forall c, In c missing_columns
                            <-> In c required_columns /\ ~ In c (columns again))
              /\ forall c, In c [ "Institution"; "Team Number"; "Advisor";
                                  "Problem"; "Ranking" ] ->
                           In c missing_columns.
Proof.
  split; [exact token_sort_ratio_laws|].
  split; [reflexivity|]. split; [reflexivity|]. split; [reflexivity|].
  split; [apply write_file_takes_both_files|].
  exact (canonical_names_regroup Fuzz.token_sort_ratio files read_file
           write_file disk_2015 "data/2015.csv" teams_2015
           token_sort_ratio_laws eq_refl eq_refl eq_refl
           (write_file_takes_both_files disk_2015)).
Defined.

(** C1, on the sample table.  The second row, " Montana, University of", is
    grouped under "University of Montana", whose normal form is the name of
    the institution of identifier 0; the team row gets no identifier,
    because the merge looks up the normal form of the row's own name. *)
Theorem merged_team_row_has_no_id :
  save_csv Fuzz.token_sort_ratio files read_file write_file disk_2015
           "data/2015.csv"
  = {| effects := [ ToCsv institutions_path institutions_2015;
                    ToCsv teams_path team_details_2015;
                    Print (Files_saved institutions_path teams_path) ];
       disk := disk_saved_2015; outcome := Returned |}
  /\ option_map (fun data => get data "Grouped Institution")
                (prepare Fuzz.token_sort_ratio teams_2015)
     = Some (Some [ Str "University of montana"; Str "University of montana";
                    Str "Mit"; Str "Mit"; Str "Caltech" ])
  /\ cell_at team_details_2015 "Institution" 1
     = Some (Str "Montana, university of")
  /\ cell_at team_details_2015 "Institution ID" 1 = Some NaN
  /\ cell_at institutions_2015 "Institution Name" 0
     = Some (Str "University of montana")
  /\ cell_at institutions_2015 "Institution ID" 0 = Some (Num 0).
Proof. repeat split; vm_compute; reflexivity. Qed.

(** * Further properties of the code *)

(** ** The grouping *)

Lemma grouping_first_seen (scorer : scorer_t) (threshold : nat) (d : dict) :
  grouping scorer threshold d ->
  forall pre n post c,
    keys d = pre ++ n :: post -> dict_get d n = Some c -> c = n \/ In c pre.
Proof.
  induction 1 as [|d x G IH F]; intros pre n post c K H.
  - now destruct pre.
  - rewrite keys_app in K. simpl in K.
    apply snoc_split in K as [(-> & K & ->)|(post' & -> & K)].
    + rewrite dict_get_snoc_new in H by assumption. injection H as <-.
      destruct (canonical_cases scorer threshold d n)
        as [[-> _]|(m & s & c & _ & _ & Hm & ->)]; [now left|].
      right. rewrite <- K. apply dict_get_keys. exists c.
      apply (grouping_value_fixed scorer threshold d G m c Hm).
    + apply (IH pre n post' c K).
      apply dict_get_snoc_inv in H as [H|(N & _)]; trivial.
      exfalso. apply N. rewrite K. apply in_elt.
Qed.

(** The canonical name of a name is the name itself or a name met before
    it, and it stands for itself: each group goes by the spelling that came
    first. *)
Theorem canonical_is_first_seen (scorer : scorer_t) (threshold : nat)
    (names : list string) :
  NoDup names ->
  exists grouped_names,
    group_names scorer threshold names = Some grouped_names
    /\ forall before name after canonical,
         names = before ++ name :: after ->
         dict_get grouped_names name = Some canonical ->
         (canonical = name \/ In canonical before)
         /\ dict_get grouped_names canonical = Some canonical.
Proof.
  intros N. destruct (group_names_grouping scorer threshold names N)
    as (d & E & G & K).
  exists d. split; trivial. intros before name after c -> H. split.
  - apply (grouping_first_seen scorer threshold d G before name after c K H).
  - apply (grouping_value_fixed scorer threshold d G name c H).
Qed.

Lemma canonical_is_first_seen_witness :
  NoDup spellings
  /\ exists grouped_names,
       group_names Fuzz.token_sort_ratio 87 spellings = Some grouped_names
       /\ forall before name after canonical,
            spellings = before ++ name :: after ->
            dict_get grouped_names name = Some canonical ->
            (canonical = name \/ In canonical before)
            /\ dict_get grouped_names canonical = Some canonical.
Proof.
  assert (N : NoDup spellings) by (apply distinct_NoDup; reflexivity).
  split; [exact N|].
  exact (canonical_is_first_seen Fuzz.token_sort_ratio 87 spellings N).
Defined.

Lemma pairwise_apart (scorer : scorer_t) (threshold : nat) (l : list string) :
  NoDup l ->
  (forall a b, In a l -> In b l -> a <> b -> scorer a b <= threshold) ->
  apart scorer threshold l.
Proof.
  induction l as [|u l IH] using rev_ind; intros N H; [constructor|].
  apply NoDup_remove in N as [N Fu]. rewrite app_nil_r in N, Fu.
  constructor.
  - apply IH; trivial. intros a b Ha Hb. apply H; apply in_or_app; now left.
  - intros y Hy. apply H.
    + apply in_or_app. right. now left.
    + apply in_or_app. now left.
    + intros ->. tauto.
Qed.

(** A name is put under another name only when it scores above the
    threshold against a name before it; so names that score at most the
    threshold against each other are all kept, each under itself. *)
Theorem merge_needs_a_score (scorer : scorer_t) (threshold : nat)
    (names : list string) :
  NoDup names ->
  exists grouped_names,
    group_names scorer threshold names = Some grouped_names
    /\ (forall before name after canonical,
          names = before ++ name :: after ->
          dict_get grouped_names name = Some canonical ->
          canonical <> name ->
          exists earlier, In earlier before /\ threshold < scorer name earlier)
    /\ ((forall a b, In a names -> In b names -> a <> b ->
                     scorer a b <= threshold) ->
        grouped_names = List.map (fun name => (name, name)) names).
Proof.
  intros N. destruct (group_names_grouping scorer threshold names N)
    as (d & E & G & K).
  exists d. split; trivial. split.
  - intros before name after c -> H Hc.
    rewrite (grouping_step scorer threshold d G before name after K) in H.
    destruct (extractOne scorer name before) as [[m s]|] eqn:X; [|congruence].
    destruct (threshold <? s) eqn:L; [|congruence].
    apply Nat.ltb_lt in L. apply extractOne_spec in X.
    exists m. split; [apply (best_in scorer _ _ _ _ X)|].
    destruct X as (_ & _ & _ & <- & _). exact L.
  - intros H.
    pose proof (apart_identity scorer threshold names
                  (pairwise_apart scorer threshold names N H) N) as A.
    congruence.
Qed.

Lemma merge_needs_a_score_witness :
  NoDup spellings
  /\ exists grouped_names,
       group_names Fuzz.token_sort_ratio 87 spellings = Some grouped_names
       /\ (forall before name after canonical,
             spellings = before ++ name :: after ->
             dict_get grouped_names name = Some canonical ->
             canonical <> name ->
             exists earlier,
               In earlier before
               /\ 87 < Fuzz.token_sort_ratio name earlier)
       /\ ((forall a b, In a spellings -> In b spellings -> a <> b ->
                        Fuzz.token_sort_ratio a b <= 87) ->
           grouped_names = List.map (fun name => (name, name)) spellings).
Proof.
  assert (N : NoDup spellings) by (apply distinct_NoDup; reflexivity).
  split; [exact N|].
  exact (merge_needs_a_score Fuzz.token_sort_ratio 87 spellings N).
Defined.

Section BestChoice.

Variable scorer : scorer_t.

Lemma best_ext (q q' : string) (l : list string) (m : string) (s : nat) :
  (forall x, scorer q x = scorer q' x) ->
  best scorer q l m s -> best scorer q' l m s.
Proof.
  intros E (l1 & l2 & -> & -> & H1 & H2). exists l1, l2.
  repeat split; trivial; intros x Hx; rewrite <- !E; auto.
Qed.

Lemma same_middle (l1 l2 l1' l2' : list string) (m m' : string) :
  l1 ++ m :: l2 = l1' ++ m' :: l2' ->
  (l1 = l1' /\ m = m') \/ In m l1' \/ In m' l1.
Proof.
  revert l1'. induction l1 as [|a l1 IH]; intros [|a' l1'] E; simpl in E.
  - injection E as -> _. now left.
  - injection E as -> _. right. left. now left.
  - injection E as -> _. right. right. now left.
  - injection E as -> E. destruct (IH l1' E) as [[-> ->]|[H|H]].
    + now left.
    + right. left. now right.
    + right. right. now right.
Qed.

Lemma best_unique (q : string) (l : list string) (m m' : string) (s s' : nat) :
  best scorer q l m s -> best scorer q l m' s' -> m = m' /\ s = s'.
Proof.
  intros B B'.
  pose proof (best_max scorer _ _ _ _ m' B (best_in scorer _ _ _ _ B')) as L1.
  pose proof (best_max scorer _ _ _ _ m B' (best_in scorer _ _ _ _ B)) as L2.
  destruct B as (l1 & l2 & E & Es & H1 & _).
  destruct B' as (l1' & l2' & E' & Es' & H1' & _).
  rewrite E in E'. destruct (same_middle _ _ _ _ _ _ E') as [[_ <-]|[H|H]].
  - split; congruence.
  - specialize (H1' m H). lia.
  - specialize (H1 m' H). lia.
Qed.

(** When [n] reaches the best score, the choice is [n] or lies before it. *)
Lemma best_before (q : string) (pre : list string) (n : string)
    (mid : list string) (m : string) (s : nat) :
  best scorer q (pre ++ n :: mid) m s -> scorer q n = s ->
  m = n \/ best scorer q pre m s.
Proof.
  intros (l1 & l2 & E & Es & H1 & H2) Hn.
  revert pre E H1. induction l1 as [|a l1 IH]; intros [|p pre] E H1; simpl in E.
  - injection E as -> _. now left.
  - injection E as -> <-. right. exists [], pre.
    split; [reflexivity|]. split; [exact Es|]. split; [intros x []|].
    intros x Hx. apply H2, in_or_app. now left.
  - injection E as <- _. specialize (H1 n (or_introl eq_refl)). lia.
  - injection E as <- E.
    destruct (IH pre E) as [->|(k1 & k2 & -> & _ & K1 & K2)].
    + intros x Hx. apply H1. now right.
    + now left.
    + right. exists (p :: k1), k2.
      split; [reflexivity|]. split; [exact Es|]. split; [|exact K2].
      intros x [<-|Hx]; [apply H1; now left | now apply K1].
Qed.

End BestChoice.

Lemma two_places (l : list string) (a b : string) :
  In a l -> In b l -> a <> b ->
  (exists p m q, l = p ++ a :: m ++ b :: q)
  \/ (exists p m q, l = p ++ b :: m ++ a :: q).
Proof.
  intros Ha Hb N. apply in_split in Ha as (p & r & ->).
  apply in_app_or in Hb as [Hb|[Hb|Hb]]; [|congruence|].
  - right. apply in_split in Hb as (p1 & p2 & ->).
    exists p1, p2, r. now rewrite <- app_assoc.
  - left. apply in_split in Hb as (r1 & r2 & ->). eauto.
Qed.

Section Variants.

Variable scorer : scorer_t.
Variable threshold : nat.
Hypothesis laws : scorer_laws scorer.
Hypothesis threshold_lt_100 : threshold < 100.

Lemma variants_in_order (d : dict) (pre : list string) (n : string)
    (mid : list string) (n' : string) (post : list string) :
  grouping scorer threshold d ->
  keys d = pre ++ n :: mid ++ n' :: post ->
  normal n = normal n' ->
  dict_get d n' = dict_get d n.
Proof.
  intros G K E.
  assert (K' : keys d = (pre ++ n :: mid) ++ n' :: post)
    by (rewrite K, <- app_assoc; reflexivity).
  assert (S100 : scorer n' n = 100)
    by (apply (score_same_normal scorer laws); congruence).
  rewrite (grouping_step scorer threshold d G _ _ _ K').
  destruct (extractOne scorer n' (pre ++ n :: mid)) as [[m s]|] eqn:X;
    [|apply extractOne_none in X; now destruct pre].
  apply extractOne_spec in X.
  assert (Hs : s = 100).
  { pose proof (best_max scorer _ _ _ _ n X ltac:(apply in_elt)) as L.
    destruct X as (_ & _ & _ & -> & _).
    pose proof (score_le_100 scorer laws n' m). lia. }
  subst s. rewrite (proj2 (Nat.ltb_lt _ _) threshold_lt_100).
  destruct (best_before scorer _ _ _ _ _ _ X S100) as [->|B]; trivial.
  rewrite (grouping_step scorer threshold d G _ _ _ K).
  assert (B' : best scorer n pre m 100).
  { apply (best_ext scorer n' n); trivial.
    intros x. apply (score_normal_left scorer laws). congruence. }
  destruct (extractOne scorer n pre) as [[m' s']|] eqn:X'.
  - apply extractOne_spec in X'.
    destruct (best_unique scorer _ _ _ _ _ _ X' B') as [-> ->].
    now rewrite (proj2 (Nat.ltb_lt _ _) threshold_lt_100).
  - apply extractOne_none in X'. apply (best_in scorer) in B'.
    rewrite X' in B'. easy.
Qed.

Lemma variants_same_value (d : dict) (a b : string) :
  grouping scorer threshold d ->
  In a (keys d) -> In b (keys d) -> normal a = normal b ->
  dict_get d a = dict_get d b.
Proof.
  intros G Ha Hb E.
  destruct (String.eqb_spec a b) as [->|N]; trivial.
  destruct (two_places _ _ _ Ha Hb N) as [(p & m & q & K)|(p & m & q & K)].
  - symmetry. now apply (variants_in_order d p a m b q).
  - now apply (variants_in_order d p b m a q).
Qed.

End Variants.

(** With a scorer that obeys the laws, two names that differ only by white
    space around them and by letter case are put under the same canonical
    name, wherever they stand in the list. *)
Theorem variants_share_canonical (scorer : scorer_t) (names : list string) :
  scorer_laws scorer -> NoDup names ->
  exists grouped_names,
    group_names scorer 87 names = Some grouped_names
    /\ forall a b, In a names -> In b names -> normal a = normal b ->
         exists canonical,
           dict_get grouped_names a = Some canonical
           /\ dict_get grouped_names b = Some canonical.
Proof.
  intros L N. destruct (group_names_grouping scorer 87 names N)
    as (d & E & G & K).
  exists d. split; trivial. intros a b Ha Hb En. rewrite <- K in Ha, Hb.
  destruct (proj1 (dict_get_keys d a) Ha) as [c Hc]. exists c. split; trivial.
  rewrite <- Hc. symmetry.
  apply (variants_same_value scorer 87 L ltac:(lia) d a b G Ha Hb En).
Qed.

Lemma variants_share_canonical_witness :
  scorer_laws Fuzz.token_sort_ratio
  /\ NoDup ["MIT"; "Caltech"; " mit "]
  /\ exists grouped_names,
       group_names Fuzz.token_sort_ratio 87 ["MIT"; "Caltech"; " mit "]
       = Some grouped_names
       /\ forall a b,
            In a ["MIT"; "Caltech"; " mit "] ->
            In b ["MIT"; "Caltech"; " mit "] ->
            normal a = normal b ->
            exists canonical,
              dict_get grouped_names a = Some canonical
              /\ dict_get grouped_names b = Some canonical.
Proof.
  assert (N : NoDup ["MIT"; "Caltech"; " mit "])
    by (apply distinct_NoDup; reflexivity).
  split; [exact token_sort_ratio_laws|]. split; [exact N|].
  exact (variants_share_canonical Fuzz.token_sort_ratio
           ["MIT"; "Caltech"; " mit "] token_sort_ratio_laws N).
Defined.

(** ** The normalisation of the columns *)

Lemma state_names_fixed :
  forallb (fun e => String.eqb (expand_state (PyStr.strip (snd e))) (snd e))
          state_abbreviations = true.
Proof. vm_compute. reflexivity. Qed.

Lemma expand_state_fixed (s : string) :
  expand_state (PyStr.strip (expand_state (PyStr.strip s)))
  = expand_state (PyStr.strip s).
Proof.
  assert (T : forall t, PyStr.strip t = t ->
                        expand_state (PyStr.strip (expand_state t)) = expand_state t).
  { intros t St. unfold expand_state at 2 3.
    destruct (dict_get state_abbreviations (PyStr.upper t)) as [full|] eqn:D.
    - destruct (String.length t =? 2) eqn:L.
      + apply dict_get_In in D.
        pose proof (proj1 (forallb_forall _ _) state_names_fixed _ D) as H.
        now apply String.eqb_eq in H.
      + rewrite St. unfold expand_state. now rewrite D, L.
    - rewrite St. unfold expand_state. now rewrite D. }
  apply T, strip_idem.
Qed.

Lemma Series_apply_text (f : string -> string) (col col' : Series) :
  Series_apply f (str_strip col) = Some col' -> exists l, col = List.map Str l.
Proof.
  revert col'. induction col as [|c col IH]; intros col'; [now exists []|].
  destruct c as [s| |]; try discriminate. simpl.
  destruct (Series_apply f (str_strip col)) as [rest|] eqn:E; [|discriminate].
  intros _. destruct (IH rest eq_refl) as [l ->]. now exists (s :: l).
Qed.

Lemma dtype_object_str_method (f : string -> string) (col : Series) :
  dtype_object (str_method f col) = dtype_object col.
Proof.
  unfold dtype_object, str_method. induction col as [|c col IH]; trivial.
  simpl. rewrite IH. now destruct c.
Qed.

Lemma text_normal_twice (col : Series) :
  str_capitalize (str_strip (str_capitalize (str_strip col)))
  = str_capitalize (str_strip col).
Proof.
  unfold str_capitalize, str_strip, str_method. rewrite !map_map.
  apply map_ext. intros [s| |]; trivial.
  f_equal. apply (normal_idem s).
Qed.

Lemma normalize_state_text (col col' : Series) :
  normalize_column "State/Province" col = Some col' ->
  col' = col \/ exists l, col = List.map Str l.
Proof.
  unfold normalize_column.
  destruct (dtype_object col && negb (String.eqb "State/Province" "Country")).
  - simpl. intros H. right. apply (Series_apply_text _ _ _ H).
  - intros H; injection H as <-. now left.
Qed.

Lemma normalize_column_idem (column : string) (col col' : Series) :
  normalize_column column col = Some col' ->
  normalize_column column col' = Some col'.
Proof.
  destruct (String.eqb_spec column "State/Province") as [->|N].
  - intros H. destruct (normalize_state_text col col' H) as [->|[l ->]]; trivial.
    rewrite normalize_state in H. injection H as <-.
    rewrite normalize_state. do 2 f_equal. rewrite map_map.
    apply map_ext. intros s. apply expand_state_fixed.
  - unfold normalize_column. apply String.eqb_neq in N. rewrite N.
    destruct (dtype_object col && negb (String.eqb column "Country")) eqn:O;
      intros H; injection H as <-; [|now rewrite O].
    unfold str_capitalize, str_strip at 1 3.
    rewrite !dtype_object_str_method, O, text_normal_twice. reflexivity.
Qed.

(** The loop over the columns changes nothing in a table it has already
    normalised: a second pass gives the table of the first. *)
Theorem normalisation_is_idempotent (df df' : DataFrame) :
  normalize_columns df = Some df' -> normalize_columns df' = Some df'.
Proof.
  revert df'. induction df as [|[c col] df IH]; intros df'; simpl.
  - intros H; now injection H as <-.
  - destruct (normalize_column c col) as [col'|] eqn:E; [|discriminate].
    destruct (normalize_columns df) as [rest|]; [|discriminate].
    intros H; injection H as <-. simpl.
    now rewrite (normalize_column_idem c col col' E), (IH rest eq_refl).
Qed.

Lemma normalisation_is_idempotent_witness :
  normalize_columns short_table
  = Some [ ("Institution", [ Str "Mit" ]); ("City", [ Str "Cambridge" ]);
           ("State/Province", [ Str "Massachusetts" ]); ("Country", [ Str "USA" ]);
           ("Team Number", [ Num 7 ]); ("Problem", [ Str "A" ]) ]
  /\ normalize_columns
       [ ("Institution", [ Str "Mit" ]); ("City", [ Str "Cambridge" ]);
         ("State/Province", [ Str "Massachusetts" ]); ("Country", [ Str "USA" ]);
         ("Team Number", [ Num 7 ]); ("Problem", [ Str "A" ]) ]
     = Some [ ("Institution", [ Str "Mit" ]); ("City", [ Str "Cambridge" ]);
              ("State/Province", [ Str "Massachusetts" ]);
              ("Country", [ Str "USA" ]);
              ("Team Number", [ Num 7 ]); ("Problem", [ Str "A" ]) ].
Proof.
  assert (H : normalize_columns short_table
              = Some [ ("Institution", [ Str "Mit" ]); ("City", [ Str "Cambridge" ]);
                       ("State/Province", [ Str "Massachusetts" ]);
                       ("Country", [ Str "USA" ]);
                       ("Team Number", [ Num 7 ]); ("Problem", [ Str "A" ]) ])
    by reflexivity.
  split; [exact H|].
  exact (normalisation_is_idempotent short_table _ H).
Defined.

(** ** What [save_csv] writes *)

Lemma In_columns_set (df : DataFrame) (c c' : string) (col : Series) :
  In c (columns (set_column df c' col)) <-> In c (columns df) \/ c = c'.
Proof.
  rewrite columns_set. destruct (contains (columns df) c') eqn:E.
  - apply contains_In in E. split; [tauto|]. intros [H| ->]; trivial.
  - rewrite in_app_iff. simpl. intuition congruence.
Qed.

Lemma normalize_columns_columns (df df' : DataFrame) :
  normalize_columns df = Some df' -> columns df' = columns df.
Proof.
  revert df'. induction df as [|[c col] df IH]; intros df'; simpl.
  - intros H; now injection H as <-.
  - destruct (normalize_column c col) as [col'|]; [|discriminate].
    destruct (normalize_columns df) as [rest|]; [|discriminate].
    intros H; injection H as <-. simpl. f_equal. now apply IH.
Qed.

Lemma prepare_columns (scorer : scorer_t) (data data' : DataFrame) (c : string) :
  prepare scorer data = Some data' ->
  In c (columns data) \/ c = "Grouped Institution" ->
  exists col, get data' c = Some col.
Proof.
  unfold prepare, fuzzy_grouping. intros H Hc.
  destruct (get data "Institution") as [inst|]; [|discriminate].
  destruct (texts (unique inst)) as [names|]; [|discriminate].
  destruct (group_names scorer 87 names) as [d|]; [|discriminate].
  destruct (get (set_column data "Grouped Institution" (map_dict d inst))
                "State/Province") as [state|]; [|discriminate].
  apply normalize_columns_columns in H.
  apply get_columns. rewrite H. apply In_columns_set. left.
  now apply In_columns_set.
Qed.

(** The two tables, column by column, once the table is prepared. *)
Lemma tables_explicit (scorer : scorer_t) (data data' : DataFrame) :
  issubset required_columns (columns data) = true ->
  prepare scorer data = Some data' ->
  exists grouped city state country number advisor problem ranking institution,
    get data' "Grouped Institution" = Some grouped
    /\ get data' "City" = Some city
    /\ get data' "State/Province" = Some state
    /\ get data' "Country" = Some country
    /\ get data' "Team Number" = Some number
    /\ get data' "Advisor" = Some advisor
    /\ get data' "Problem" = Some problem
    /\ get data' "Ranking" = Some ranking
    /\ get data' "Institution" = Some institution
    /\ unique_institutions data'
       = Some
           [ ("Institution ID",
              List.map (fun i => Num (Z.of_nat i))
                (seq 0 (length (select (first_occurrence [] grouped) grouped))));
             ("Institution Name", select (first_occurrence [] grouped) grouped);
             ("City", select (first_occurrence [] grouped) city);
             ("State/Province", select (first_occurrence [] grouped) state);
             ("Country", select (first_occurrence [] grouped) country) ]
    /\ forall institutions,
         unique_institutions data' = Some institutions ->
         team_details data' institutions
         = if merge_refuses institution
                (select (first_occurrence [] grouped) grouped)
           then None
           else
             Some
               (let plan :=
                  merge_left 0 institution
                    (select (first_occurrence [] grouped) grouped) in
                [ ("Team Number", take_left plan number);
                  ("Advisor", take_left plan advisor);
                  ("Problem", take_left plan problem);
                  ("Ranking", take_left plan ranking);
                  ("Institution", take_left plan institution);
                  ("Institution ID",
                   take_right plan
                     (List.map (fun i => Num (Z.of_nat i))
                        (seq 0 (length (select (first_occurrence [] grouped)
                                               grouped))))) ]).
Proof.
  intros S P.
  assert (R : forall c, In c required_columns -> exists col, get data' c = Some col).
  { intros c Hc. apply (prepare_columns scorer data data' c P). left.
    apply (proj1 (issubset_In _ _) S c Hc). }
  destruct (prepare_columns scorer data data' "Grouped Institution" P)
    as [grouped Hg]; [now right|].
  destruct (R "City") as [city Hcity]; [simpl; tauto|].
  destruct (R "State/Province") as [state Hstate]; [simpl; tauto|].
  destruct (R "Country") as [country Hcountry]; [simpl; tauto|].
  destruct (R "Team Number") as [number Hnumber]; [simpl; tauto|].
  destruct (R "Advisor") as [advisor Hadvisor]; [simpl; tauto|].
  destruct (R "Problem") as [problem Hproblem]; [simpl; tauto|].
  destruct (R "Ranking") as [ranking Hranking]; [simpl; tauto|].
  destruct (R "Institution") as [institution Hinstitution]; [simpl; tauto|].
  exists grouped, city, state, country, number, advisor, problem, ranking,
    institution.
  repeat (split; [assumption|]).
  assert (U : unique_institutions data'
              = Some
                  [ ("Institution ID",
                     List.map (fun i => Num (Z.of_nat i))
                       (seq 0 (length (select (first_occurrence [] grouped)
                                              grouped))));
                    ("Institution Name",
                     select (first_occurrence [] grouped) grouped);
                    ("City", select (first_occurrence [] grouped) city);
                    ("State/Province",
                     select (first_occurrence [] grouped) state);
                    ("Country", select (first_occurrence [] grouped) country) ]).
  { unfold unique_institutions. now rewrite Hg, Hcity, Hstate, Hcountry. }
  split; [exact U|].
  intros institutions U'. rewrite U in U'. injection U' as <-.
  unfold team_details.
  rewrite Hnumber, Hadvisor, Hproblem, Hranking, Hinstitution.
  reflexivity.
Qed.



(** The file with the line of the column names only: the institutions are
    written, without a row, and [merge] raises. *)
Example header_only_run :
  save_csv Fuzz.token_sort_ratio files read_file write_file disk_2015
           "empty.csv"
  = {| effects :=
         [ ToCsv institutions_path
             [ ("Institution ID", []); ("Institution Name", []); ("City", []);
               ("State/Province", []); ("Country", []) ] ];
       disk :=
         (institutions_path,
          [ ("Institution ID", []); ("Institution Name", []); ("City", []);
            ("State/Province", []); ("Country", []) ]) :: disk_2015;
       outcome := Raised |}.
Proof. vm_compute. reflexivity. Qed.

(** The sample file on a disk without the directory [results]: the first
    [to_csv] raises and nothing is written or printed. *)
Example no_directory_run :
  save_csv Fuzz.token_sort_ratio files read_file no_directory disk_2015
           "data/2015.csv"
  = {| effects := []; disk := disk_2015; outcome := Raised |}.
Proof. vm_compute. reflexivity. Qed.

(** ** The rows of the two tables *)

Lemma take_left_merge (col left_key right_key : Series) (i : nat) :
  NoDup right_key ->
  take_left (merge_left i left_key right_key) col
  = List.map (fun j => nth j col NaN) (seq i (length left_key)).
Proof.
  intros N. revert i. induction left_key as [|k left_key IH]; intros i; trivial.
  cbn [merge_left length seq List.map]. unfold take_left in *.
  rewrite map_app, IH. f_equal.
  destruct (positions 0 k right_key) as [|j rest] eqn:E; trivial.
  apply positions_NoDup in E as ->; trivial.
Qed.

Lemma map_nth_all (col : Series) :
  List.map (fun j => nth j col NaN) (seq 0 (length col)) = col.
Proof.
  induction col as [|c col IH]; trivial.
  cbn [length seq List.map nth]. f_equal.
  rewrite <- seq_shift, map_map. exact IH.
Qed.

Lemma rectangular_length (data : DataFrame) (c : string) (col : Series) :
  rectangular data = true -> get data c = Some col -> length col = nrows data.
Proof.
  intros R H. apply get_In in H.
  apply (proj1 (forallb_forall _ _) R) in H. now apply Nat.eqb_eq in H.
Qed.

Lemma Series_apply_length (f : string -> string) (col col' : Series) :
  Series_apply f col = Some col' -> length col' = length col.
Proof.
  revert col'. induction col as [|c col IH]; intros col'; simpl.
  - intros H; now injection H as <-.
  - destruct c as [s| |]; try discriminate.
    destruct (Series_apply f col) as [rest|]; [|discriminate].
    intros H; injection H as <-. simpl. f_equal. now apply IH.
Qed.

Lemma normalize_column_length (column : string) (col col' : Series) :
  normalize_column column col = Some col' -> length col' = length col.
Proof.
  unfold normalize_column.
  destruct (dtype_object col && negb (String.eqb column "Country")).
  - destruct (String.eqb column "State/Province").
    + intros H. apply Series_apply_length in H. rewrite H.
      unfold str_strip, str_method. apply length_map.
    + intros H; injection H as <-.
      unfold str_capitalize, str_strip, str_method. now rewrite !length_map.
  - intros H; now injection H as <-.
Qed.

Lemma prepared_length (scorer : scorer_t) (data : DataFrame)
    (raw : list string) (d : dict) (data' : DataFrame) (c : string)
    (col' : Series) :
  valid_table data = true -> rectangular data = true ->
  prepared scorer data raw d data' ->
  In c required_columns -> get data' c = Some col' ->
  length col' = nrows data.
Proof.
  intros V R P Hc H.
  destruct (prepared_required scorer data raw d data' c V P Hc)
    as (col0 & H0 & col & Hcol & Hn).
  rewrite H in H0. injection H0 as <-.
  rewrite <- (rectangular_length data c col R Hcol).
  destruct (String.eqb_spec c "State/Province") as [->|N].
  - rewrite (prep_get_state _ _ _ _ _ P col Hcol) in H. injection H as <-.
    apply length_map.
  - apply (normalize_column_length c). auto.
Qed.

Lemma prepared_rows (scorer : scorer_t) (data : DataFrame)
    (raw : list string) (d : dict) (data' : DataFrame) :
  rectangular data = true -> prepared scorer data raw d data' ->
  length raw = nrows data.
Proof.
  intros R P.
  rewrite <- (rectangular_length data _ _ R (prep_institution _ _ _ _ _ P)).
  now rewrite length_map.
Qed.

(** The two tables of a valid table with a row, column by column. *)
Lemma tables_valid_explicit (scorer : scorer_t) (data : DataFrame) :
  valid_table data = true -> populated data = true ->
  rectangular data = true ->
  exists raw d data' city state country number advisor problem ranking,
    prepared scorer data raw d data'
    /\ get data' "City" = Some city
    /\ get data' "State/Province" = Some state
    /\ get data' "Country" = Some country
    /\ get data' "Team Number" = Some number
    /\ get data' "Advisor" = Some advisor
    /\ get data' "Problem" = Some problem
    /\ get data' "Ranking" = Some ranking
    /\ (length city = nrows data /\ length state = nrows data
        /\ length country = nrows data /\ length number = nrows data
        /\ length advisor = nrows data /\ length problem = nrows data
        /\ length ranking = nrows data /\ length raw = nrows data)
    /\ unique_institutions data'
       = Some
           [ ("Institution ID",
              List.map (fun i => Num (Z.of_nat i))
                (seq 0 (length (unique (grouped_column d raw)))));
             ("Institution Name", unique (grouped_column d raw));
             ("City", select (first_occurrence [] (grouped_column d raw)) city);
             ("State/Province",
              select (first_occurrence [] (grouped_column d raw)) state);
             ("Country",
              select (first_occurrence [] (grouped_column d raw)) country) ]
    /\ forall institutions,
         unique_institutions data' = Some institutions ->
         team_details data' institutions
         = Some
             [ ("Team Number", number);
               ("Advisor", advisor);
               ("Problem", problem);
               ("Ranking", ranking);
               ("Institution", List.map Str (List.map normal raw));
               ("Institution ID",
                List.map (team_id (unique (grouped_column d raw)))
                         (List.map Str (List.map normal raw))) ].
Proof.
  intros V Pop R. destruct (prepare_valid scorer data V) as (raw & d & data' & P).
  assert (S : issubset required_columns (columns data) = true).
  { unfold valid_table in V. rewrite !andb_true_iff in V. tauto. }
  destruct (tables_explicit scorer data data' S (prep_run _ _ _ _ _ P))
    as (g & city & state & country & number & advisor & problem & ranking & inst
        & Hg & Hc & Hs & Hk & Hn & Ha & Hp & Hrk & Hi & U & T).
  rewrite (prep_get_grouped _ _ _ _ _ P) in Hg. injection Hg as <-.
  rewrite (prep_get_institution _ _ _ _ _ P) in Hi. injection Hi as <-.
  fold (grouped_column d raw) in U, T.
  rewrite select_first_occurrence in U, T.
  assert (N : NoDup (unique (grouped_column d raw)))
    by apply (unique_by_NoDup cell_eqb cell_eqb_eq).
  exists raw, d, data', city, state, country, number, advisor, problem, ranking.
  repeat (split; [assumption|]).
  pose proof (fun c col' H H' =>
                prepared_length scorer data raw d data' c col' V R P H H') as PL.
  assert (L1 : length city = nrows data) by (apply (PL "City"); simpl; tauto).
  assert (L2 : length state = nrows data)
    by (apply (PL "State/Province"); simpl; tauto).
  assert (L3 : length country = nrows data)
    by (apply (PL "Country"); simpl; tauto).
  assert (L4 : length number = nrows data)
    by (apply (PL "Team Number"); simpl; tauto).
  assert (L5 : length advisor = nrows data)
    by (apply (PL "Advisor"); simpl; tauto).
  assert (L6 : length problem = nrows data)
    by (apply (PL "Problem"); simpl; tauto).
  assert (L7 : length ranking = nrows data)
    by (apply (PL "Ranking"); simpl; tauto).
  pose proof (prepared_rows scorer data raw d data' R P) as L8.
  split; [tauto|]. split; [exact U|].
  assert (Len : length (List.map Str (List.map normal raw)) = nrows data)
    by now rewrite !length_map.
  assert (Tk : forall col, length col = nrows data ->
                 take_left (merge_left 0 (List.map Str (List.map normal raw))
                                       (unique (grouped_column d raw))) col
                 = col).
  { intros col Lc. rewrite take_left_merge by assumption.
    rewrite Len, <- Lc. apply map_nth_all. }
  intros institutions U'. rewrite (T _ U').
  rewrite merge_accepts
    by now apply (populated_raw data raw (prep_institution _ _ _ _ _ P)).
  cbv zeta. rewrite team_id_merge by assumption.
  now rewrite !Tk by assumption.
Qed.

(** The run that writes these tables. *)
Lemma save_csv_valid_explicit (scorer : scorer_t) (FS : Type)
    (read_csv : FS -> string -> string + DataFrame)
    (to_csv : FS -> string -> DataFrame -> FS * ending)
    (fs : FS) (file_path : string) (data : DataFrame) :
  read_csv fs file_path = inr data -> valid_table data = true ->
  populated data = true -> rectangular data = true ->
  takes_both_files to_csv fs ->
  exists raw d data' city state country number advisor problem ranking
         institutions teams fs1 fs2,
    prepared scorer data raw d data'
    /\ get data' "City" = Some city
    /\ get data' "State/Province" = Some state
    /\ get data' "Country" = Some country
    /\ get data' "Team Number" = Some number
    /\ get data' "Advisor" = Some advisor
    /\ get data' "Problem" = Some problem
    /\ get data' "Ranking" = Some ranking
    /\ (length city = nrows data /\ length state = nrows data
        /\ length country = nrows data /\ length number = nrows data
        /\ length advisor = nrows data /\ length problem = nrows data
        /\ length ranking = nrows data /\ length raw = nrows data)
    /\ institutions
       = [ ("Institution ID",
            List.map (fun i => Num (Z.of_nat i))
              (seq 0 (length (unique (grouped_column d raw)))));
           ("Institution Name", unique (grouped_column d raw));
           ("City", select (first_occurrence [] (grouped_column d raw)) city);
           ("State/Province",
            select (first_occurrence [] (grouped_column d raw)) state);
           ("Country",
            select (first_occurrence [] (grouped_column d raw)) country) ]
    /\ teams
       = [ ("Team Number", number);
           ("Advisor", advisor);
           ("Problem", problem);
           ("Ranking", ranking);
           ("Institution", List.map Str (List.map normal raw));
           ("Institution ID",
            List.map (team_id (unique (grouped_column d raw)))
                     (List.map Str (List.map normal raw))) ]
    /\ to_csv fs institutions_path institutions = (fs1, Returned)
    /\ to_csv fs1 teams_path teams = (fs2, Returned)
    /\ save_csv scorer FS read_csv to_csv fs file_path
       = {| effects := [ ToCsv institutions_path institutions;
                         ToCsv teams_path teams;
                         Print (Files_saved institutions_path teams_path) ];
            disk := fs2; outcome := Returned |}.
Proof.
  intros Hr V Pop R W.
  destruct (tables_valid_explicit scorer data V Pop R)
    as (raw & d & data' & city & state & country & number & advisor & problem
        & ranking & P & Hc & Hs & Hk & Hn & Ha & Hp & Hrk & L & U & T).
  specialize (T _ U).
  assert (S : issubset required_columns (columns data) = true).
  { unfold valid_table in V. rewrite !andb_true_iff in V. tauto. }
  destruct (save_csv_tables scorer FS read_csv to_csv fs file_path data data'
              _ _ Hr S (prep_run _ _ _ _ _ P) U T W)
    as (fs1 & fs2 & W1 & W2 & E).
  exists raw, d, data', city, state, country, number, advisor, problem,
    ranking.
  eexists _, _, fs1, fs2.
  repeat (split; [first [assumption | reflexivity]|]). exact E.
Qed.

(** On a valid table with a row and as many cells in every column, read
    on a disk that takes both files, the teams written are the rows of the
    input, one for one and in order: the columns Team Number, Advisor,
    Problem, Ranking and Institution are those of the prepared table, and
    no row is lost or doubled by the merge. *)
Theorem teams_keep_rows (scorer : scorer_t) (FS : Type)
    (read_csv : FS -> string -> string + DataFrame)
    (to_csv : FS -> string -> DataFrame -> FS * ending)
    (fs : FS) (file_path : string) (data : DataFrame) :
  read_csv fs file_path = inr data -> valid_table data = true ->
  populated data = true -> rectangular data = true ->
  takes_both_files to_csv fs ->
  exists data' institutions teams fs1 fs2,
    prepare scorer data = Some data'
    /\ to_csv fs institutions_path institutions = (fs1, Returned)
    /\ to_csv fs1 teams_path teams = (fs2, Returned)
    /\ save_csv scorer FS read_csv to_csv fs file_path
       = {| effects := [ ToCsv institutions_path institutions;
                         ToCsv teams_path teams;
                         Print (Files_saved institutions_path teams_path) ];
            disk := fs2; outcome := Returned |}
    /\ (forall c,
          In c ["Team Number"; "Advisor"; "Problem"; "Ranking"; "Institution"] ->
          exists col,
            get data' c = Some col /\ get teams c = Some col
            /\ length col = nrows data)
    /\ exists ids,
         get teams "Institution ID" = Some ids /\ length ids = nrows data.
Proof.
  intros Hr V Pop R W.
  destruct (save_csv_valid_explicit scorer FS read_csv to_csv fs file_path data
              Hr V Pop R W)
    as (raw & d & data' & city & state & country & number & advisor & problem
        & ranking & institutions & teams & fs1 & fs2 & P & _ & _ & _ & Hn & Ha
        & Hp & Hrk & (_ & _ & _ & L4 & L5 & L6 & L7 & L8) & _ & -> & W1 & W2 & E).
  eexists data', institutions, _, fs1, fs2.
  split; [apply (prep_run _ _ _ _ _ P)|].
  split; [exact W1|]. split; [exact W2|]. split; [exact E|]. split.
  - intros c [<-|[<-|[<-|[<-|[<-|[]]]]]].
    + exists number. split; [exact Hn|]. split; [reflexivity | exact L4].
    + exists advisor. split; [exact Ha|]. split; [reflexivity | exact L5].
    + exists problem. split; [exact Hp|]. split; [reflexivity | exact L6].
    + exists ranking. split; [exact Hrk|]. split; [reflexivity | exact L7].
    + exists (List.map Str (List.map normal raw)).
      split; [apply (prep_get_institution _ _ _ _ _ P)|].
      split; [reflexivity | now rewrite !length_map].
  - eexists. split; [reflexivity | now rewrite !length_map].
Qed.

Lemma teams_keep_rows_witness :
  read_file disk_2015 "data/2015.csv" = inr teams_2015
  /\ valid_table teams_2015 = true
  /\ populated teams_2015 = true
  /\ rectangular teams_2015 = true
  /\ takes_both_files write_file disk_2015
  /\ exists data' institutions teams fs1 fs2,
       prepare Fuzz.token_sort_ratio teams_2015 = Some data'
       /\ write_file disk_2015 institutions_path institutions = (fs1, Returned)
       /\ write_file fs1 teams_path teams = (fs2, Returned)
       /\ save_csv Fuzz.token_sort_ratio files read_file write_file disk_2015
                   "data/2015.csv"
          = {| effects := [ ToCsv institutions_path institutions;
                            ToCsv teams_path teams;
                            Print (Files_saved institutions_path teams_path) ];
               disk := fs2; outcome := Returned |}
       /\ (forall c,
             In c ["Team Number"; "Advisor"; "Problem"; "Ranking"; "Institution"] ->
             exists col,
               get data' c = Some col /\ get teams c = Some col
               /\ length col = nrows teams_2015)
       /\ exists ids,
            get teams "Institution ID" = Some ids
            /\ length ids = nrows teams_2015.
Proof.
  split; [reflexivity|]. split; [reflexivity|]. split; [reflexivity|].
  split; [reflexivity|]. split; [apply write_file_takes_both_files|].
  exact (teams_keep_rows Fuzz.token_sort_ratio files read_file write_file
           disk_2015 "data/2015.csv" teams_2015 eq_refl eq_refl eq_refl eq_refl
           (write_file_takes_both_files disk_2015)).
Defined.

Lemma select_kept_is_new (seen key : Series) (k : cell) :
  In k (select (first_occurrence seen key) key) -> mem k seen = false.
Proof.
  rewrite select_first_occurrence_from, filter_In. intros [_ H].
  now apply negb_true_iff in H.
Qed.

(** Row [j] of the rows kept is the row of the first appearance of its key,
    in every column. *)
Lemma select_row (key : Series) :
  forall seen j k,
    nth_error (select (first_occurrence seen key) key) j = Some k ->
    exists i,
      nth_error key i = Some k
      /\ (forall i', i' < i -> nth_error key i' <> Some k)
      /\ forall col, length col = length key ->
           nth_error (select (first_occurrence seen key) col) j = nth_error col i.
Proof.
  induction key as [|k0 key IH]; intros seen j k H.
  - now destruct j.
  - assert (Next : forall j',
               nth_error (select (first_occurrence (k0 :: seen) key) key) j'
               = Some k ->
               exists i,
                 nth_error (k0 :: key) i = Some k
                 /\ (forall i', i' < i -> nth_error (k0 :: key) i' <> Some k)
                 /\ forall c0 col, length col = length key ->
                      nth_error (select (first_occurrence (k0 :: seen) key) col) j'
                      = nth_error (c0 :: col) i).
    { intros j' H'. destruct (IH (k0 :: seen) j' k H') as (i & Hi & Hf & Hc).
      exists (S i). split; [exact Hi|]. split.
      - intros [|i'] Li; simpl.
        + apply nth_error_In, select_kept_is_new in H'.
          rewrite mem_cons in H'. apply orb_false_iff in H' as [H' _].
          intros Ek. injection Ek as ->.
          rewrite (proj2 (cell_eqb_eq k k) eq_refl) in H'. discriminate.
        + apply Hf. lia.
      - intros c0 col Lc. simpl. now apply Hc. }
    cbn [first_occurrence select] in H.
    destruct (negb (mem k0 seen)) eqn:B.
    + destruct j as [|j'].
      * injection H as <-. exists 0. split; [reflexivity|]. split; [lia|].
        intros [|c0 col] Lc; [discriminate|].
        cbn [first_occurrence select]. now rewrite B.
      * destruct (Next j' H) as (i & Hi & Hf & Hc).
        exists i. split; [exact Hi|]. split; [exact Hf|].
        intros [|c0 col] Lc; [discriminate|].
        cbn [first_occurrence select]. rewrite B. simpl.
        apply Hc. simpl in Lc. lia.
    + destruct (Next j H) as (i & Hi & Hf & Hc).
      exists i. split; [exact Hi|]. split; [exact Hf|].
      intros [|c0 col] Lc; [discriminate|].
      cbn [first_occurrence select]. rewrite B.
      apply Hc. simpl in Lc. lia.
Qed.

(** On a valid table with a row and as many cells in every column, read
    on a disk that takes both files, each institution written carries the
    city, the state and the country of the first row of the prepared table
    that has its name as grouped name. *)
Theorem institution_row_is_first_row (scorer : scorer_t) (FS : Type)
    (read_csv : FS -> string -> string + DataFrame)
    (to_csv : FS -> string -> DataFrame -> FS * ending)
    (fs : FS) (file_path : string) (data : DataFrame) :
  read_csv fs file_path = inr data -> valid_table data = true ->
  populated data = true -> rectangular data = true ->
  takes_both_files to_csv fs ->
  exists data' grouped institutions teams names fs1 fs2,
    prepare scorer data = Some data'
    /\ get data' "Grouped Institution" = Some grouped
    /\ to_csv fs institutions_path institutions = (fs1, Returned)
    /\ to_csv fs1 teams_path teams = (fs2, Returned)
    /\ save_csv scorer FS read_csv to_csv fs file_path
       = {| effects := [ ToCsv institutions_path institutions;
                         ToCsv teams_path teams;
                         Print (Files_saved institutions_path teams_path) ];
            disk := fs2; outcome := Returned |}
    /\ get institutions "Institution Name" = Some names
    /\ forall j name,
         nth_error names j = Some name ->
         exists i,
           nth_error grouped i = Some name
           /\ (forall i', i' < i -> nth_error grouped i' <> Some name)
           /\ forall c, In c ["City"; "State/Province"; "Country"] ->
                cell_at institutions c j = cell_at data' c i.
Proof.
  intros Hr V Pop R W.
  destruct (save_csv_valid_explicit scorer FS read_csv to_csv fs file_path data
              Hr V Pop R W)
    as (raw & d & data' & city & state & country & number & advisor & problem
        & ranking & institutions & teams & fs1 & fs2 & P & Hc & Hs & Hk & _ & _
        & _ & _ & (L1 & L2 & L3 & _ & _ & _ & _ & L8) & -> & _ & W1 & W2 & E).
  eexists data', (grouped_column d raw), _, teams,
    (unique (grouped_column d raw)), fs1, fs2.
  split; [apply (prep_run _ _ _ _ _ P)|].
  split; [apply (prep_get_grouped _ _ _ _ _ P)|].
  split; [exact W1|]. split; [exact W2|]. split; [exact E|].
  split; [reflexivity|].
  intros j name Hj. rewrite <- select_first_occurrence in Hj.
  destruct (select_row _ _ _ _ Hj) as (i & Hi & Hf & Hcol).
  assert (Lg : length (grouped_column d raw) = nrows data)
    by (unfold grouped_column; now rewrite !length_map).
  exists i. split; [exact Hi|]. split; [exact Hf|].
  intros c [<-|[<-|[<-|[]]]]; unfold cell_at.
  - rewrite Hc. cbn [get String.eqb Ascii.eqb Bool.eqb]. apply Hcol. congruence.
  - rewrite Hs. cbn [get String.eqb Ascii.eqb Bool.eqb]. apply Hcol. congruence.
  - rewrite Hk. cbn [get String.eqb Ascii.eqb Bool.eqb]. apply Hcol. congruence.
Qed.

Lemma institution_row_is_first_row_witness :
  read_file disk_2015 "data/2015.csv" = inr teams_2015
  /\ valid_table teams_2015 = true
  /\ populated teams_2015 = true
  /\ rectangular teams_2015 = true
  /\ takes_both_files write_file disk_2015
  /\ exists data' grouped institutions teams names fs1 fs2,
       prepare Fuzz.token_sort_ratio teams_2015 = Some data'
       /\ get data' "Grouped Institution" = Some grouped
       /\ write_file disk_2015 institutions_path institutions = (fs1, Returned)
       /\ write_file fs1 teams_path teams = (fs2, Returned)
       /\ save_csv Fuzz.token_sort_ratio files read_file write_file disk_2015
                   "data/2015.csv"
          = {| effects := [ ToCsv institutions_path institutions;
                            ToCsv teams_path teams;
                            Print (Files_saved institutions_path teams_path) ];
               disk := fs2; outcome := Returned |}
       /\ get institutions "Institution Name" = Some names
       /\ forall j name,
            nth_error names j = Some name ->
            exists i,
              nth_error grouped i = Some name
              /\ (forall i', i' < i -> nth_error grouped i' <> Some name)
              /\ forall c, In c ["City"; "State/Province"; "Country"] ->
                   cell_at institutions c j = cell_at data' c i.
Proof.
  split; [reflexivity|]. split; [reflexivity|]. split; [reflexivity|].
  split; [reflexivity|]. split; [apply write_file_takes_both_files|].
  exact (institution_row_is_first_row Fuzz.token_sort_ratio files read_file
           write_file disk_2015 "data/2015.csv" teams_2015 eq_refl eq_refl
           eq_refl eq_refl (write_file_takes_both_files disk_2015)).
Defined.

(** On a valid table with a row, read on a disk that takes both files, a
    team row whose institution name has a canonical name of the same normal
    form, as every name that stands for itself has, gets the identifier of
    the institution of that name. *)
Theorem kept_name_gets_its_institution (scorer : scorer_t) (FS : Type)
    (read_csv : FS -> string -> string + DataFrame)
    (to_csv : FS -> string -> DataFrame -> FS * ending)
    (fs : FS) (file_path : string) (data : DataFrame) :
  read_csv fs file_path = inr data -> valid_table data = true ->
  populated data = true -> takes_both_files to_csv fs ->
  exists raw grouped_names institutions teams names ids team_ids fs1 fs2,
    get data "Institution" = Some (List.map Str raw)
    /\ group_names scorer 87 (unique_by String.eqb raw) = Some grouped_names
    /\ to_csv fs institutions_path institutions = (fs1, Returned)
    /\ to_csv fs1 teams_path teams = (fs2, Returned)
    /\ save_csv scorer FS read_csv to_csv fs file_path
       = {| effects := [ ToCsv institutions_path institutions;
                         ToCsv teams_path teams;
                         Print (Files_saved institutions_path teams_path) ];
            disk := fs2; outcome := Returned |}
    /\ get institutions "Institution Name" = Some names
    /\ get institutions "Institution ID" = Some ids
    /\ get teams "Institution ID" = Some team_ids
    /\ forall i name canonical,
         nth_error raw i = Some name ->
         dict_get grouped_names name = Some canonical ->
         normal canonical = normal name ->
         exists j,
           nth_error team_ids i = Some (Num (Z.of_nat j))
           /\ nth_error names j = Some (Str (normal canonical))
           /\ nth_error ids j = Some (Num (Z.of_nat j)).
Proof.
  intros Hr V Pop W.
  destruct (save_csv_valid scorer FS read_csv to_csv fs file_path data Hr V Pop W)
    as (raw & d & data' & institutions & teams & fs1 & fs2 & P & S & W1 & W2 & E).
  eexists raw, d, institutions, teams, _, _, _, fs1, fs2.
  split; [apply (prep_institution _ _ _ _ _ P)|].
  split; [apply (prep_names _ _ _ _ _ P)|].
  split; [exact W1|]. split; [exact W2|]. split; [exact E|].
  split; [apply (saved_names _ _ _ _ _ _ S)|].
  split; [apply (saved_ids _ _ _ _ _ _ S)|].
  split; [apply (saved_team_ids _ _ _ _ _ _ S)|].
  intros i name c Hi Hc En.
  set (names := unique (grouped_column d raw)).
  assert (HI : In (Str (normal name)) names).
  { apply (unique_by_In cell_eqb cell_eqb_eq). unfold grouped_column.
    apply in_map, in_map_iff. exists name. split; [|eapply nth_error_In, Hi].
    unfold representative. now rewrite Hc, En. }
  destruct (team_id names (Str (normal name))) as [s|z|] eqn:T.
  - unfold team_id in T. now destruct (positions 0 _ names).
  - destruct (team_id_row _ _ _ T ltac:(discriminate)) as (j & Ej & Hj).
    exists j. split; [|split].
    + rewrite !nth_error_map, Hi. simpl. fold names. now rewrite T, Ej.
    + now rewrite En.
    + apply nth_error_index. split; trivial.
      apply nth_error_Some. congruence.
  - apply team_id_null in T. tauto.
Qed.

Lemma kept_name_gets_its_institution_witness :
  read_file disk_2015 "data/2015.csv" = inr teams_2015
  /\ valid_table teams_2015 = true
  /\ populated teams_2015 = true
  /\ takes_both_files write_file disk_2015
  /\ exists raw grouped_names institutions teams names ids team_ids fs1 fs2,
       get teams_2015 "Institution" = Some (List.map Str raw)
       /\ group_names Fuzz.token_sort_ratio 87 (unique_by String.eqb raw)
          = Some grouped_names
       /\ write_file disk_2015 institutions_path institutions = (fs1, Returned)
       /\ write_file fs1 teams_path teams = (fs2, Returned)
       /\ save_csv Fuzz.token_sort_ratio files read_file write_file disk_2015
                   "data/2015.csv"
          = {| effects := [ ToCsv institutions_path institutions;
                            ToCsv teams_path teams;
                            Print (Files_saved institutions_path teams_path) ];
               disk := fs2; outcome := Returned |}
       /\ get institutions "Institution Name" = Some names
       /\ get institutions "Institution ID" = Some ids
       /\ get teams "Institution ID" = Some team_ids
       /\ forall i name canonical,
            nth_error raw i = Some name ->
            dict_get grouped_names name = Some canonical ->
            normal canonical = normal name ->
            exists j,
              nth_error team_ids i = Some (Num (Z.of_nat j))
              /\ nth_error names j = Some (Str (normal canonical))
              /\ nth_error ids j = Some (Num (Z.of_nat j)).
Proof.
  split; [reflexivity|]. split; [reflexivity|]. split; [reflexivity|].
  split; [apply write_file_takes_both_files|].
  exact (kept_name_gets_its_institution Fuzz.token_sort_ratio files read_file
           write_file disk_2015 "data/2015.csv" teams_2015 eq_refl eq_refl
           eq_refl (write_file_takes_both_files disk_2015)).
Defined.

(** ** The prompt loop *)

Lemma no_prompt_in_effects (l : list effect) :
  filter is_prompt (List.map Saving l) = [].
Proof. induction l; simpl; trivial. Qed.

Section MainFacts.

Variable scorer : scorer_t.
Variable FS : Type.
Variable read_csv : FS -> string -> string + DataFrame.
Variable to_csv : FS -> string -> DataFrame -> FS * ending.

Lemma save_csv_rejected (fs : FS) (file_path : string) :
  rejected (read_csv fs file_path) = true ->
  save_csv scorer FS read_csv to_csv fs file_path
  = {| effects := [Print (rejection (read_csv fs file_path))];
       disk := fs; outcome := Returned |}.
Proof.
  unfold save_csv, rejected, rejection.
  destruct (read_csv fs file_path) as [e|data]; trivial.
  now intros ->.
Qed.

(** When [save_csv] returns, the disk it leaves is the disk after its
    effects. *)
Lemma save_csv_disk (fs : FS) (file_path : string) :
  outcome (save_csv scorer FS read_csv to_csv fs file_path) = Returned ->
  disk (save_csv scorer FS read_csv to_csv fs file_path)
  = fold_left (perform FS to_csv)
              (effects (save_csv scorer FS read_csv to_csv fs file_path)) fs.
Proof.
  unfold save_csv.
  destruct (read_csv fs file_path) as [e|data]; trivial.
  destruct (negb (issubset required_columns (columns data))); trivial.
  destruct (prepare scorer data) as [data'|]; [|discriminate].
  destruct (unique_institutions data') as [institutions|]; [|discriminate].
  destruct (to_csv fs institutions_path institutions) as [fs1 [|]] eqn:W1;
    [|discriminate].
  destruct (team_details data' institutions) as [teams|]; [|discriminate].
  destruct (to_csv fs1 teams_path teams) as [fs2 [|]] eqn:W2; [|discriminate].
  intros _. cbn [disk effects fold_left perform].
  rewrite W1. cbn [fst]. now rewrite W2.
Qed.

Lemma main_rejected_paths (fs : FS) (paths inputs : list string) :
  (forall p, In p paths ->
             p <> "1" /\ p <> "2" /\ rejected (read_csv fs p) = true) ->
  let next := main scorer FS read_csv to_csv fs inputs in
  let run := main scorer FS read_csv to_csv fs (paths ++ inputs) in
  trace run
  = flat_map (fun p => [Prompt; Saving (Print (rejection (read_csv fs p)))])
             paths ++ trace next
  /\ disk_after run = disk_after next
  /\ unread run = unread next
  /\ ended run = ended next.
Proof.
  induction paths as [|p paths IH]; intros H; [now simpl|].
  destruct (H p (or_introl eq_refl)) as (N1 & N2 & Rj).
  destruct IH as (T & D & U & E); [intros q Hq; apply H; now right|].
  cbn [app main flat_map].
  apply String.eqb_neq in N1, N2. rewrite N1, N2.
  rewrite (save_csv_rejected fs p Rj).
  cbn [effects disk outcome List.map trace disk_after unread ended app].
  rewrite T. repeat split; assumption.
Qed.

(** Paths that do not load or lack a required column do not stop the
    loop: each gets its one message, nothing is written, the disk is as it
    was, and at the line "2" the loop prints that it quits and returns,
    leaving the lines after it unread. *)
Theorem main_absorbs_failures (fs : FS) (paths rest : list string) :
  (forall p, In p paths ->
             p <> "1" /\ p <> "2" /\ rejected (read_csv fs p) = true) ->
  trace (main scorer FS read_csv to_csv fs (paths ++ "2" :: rest))
  = flat_map (fun p => [Prompt; Saving (Print (rejection (read_csv fs p)))])
             paths ++ [Prompt; Quitting]
  /\ existsb is_write
             (trace (main scorer FS read_csv to_csv fs (paths ++ "2" :: rest)))
     = false
  /\ disk_after (main scorer FS read_csv to_csv fs (paths ++ "2" :: rest)) = fs
  /\ unread (main scorer FS read_csv to_csv fs (paths ++ "2" :: rest)) = rest
  /\ ended (main scorer FS read_csv to_csv fs (paths ++ "2" :: rest)) = Returned.
Proof.
  intros H.
  destruct (main_rejected_paths fs paths ("2" :: rest) H) as (T & D & U & E).
  cbn [main String.eqb Ascii.eqb Bool.eqb trace disk_after unread ended] in *.
  repeat split; trivial.
  rewrite T, existsb_app. simpl. rewrite orb_false_r.
  clear. induction paths as [|p paths IH]; simpl; trivial.
Qed.

(** After such paths the line "1" runs [save_csv] once on the sample file,
    whatever comes of it, and ends the loop: the effects of that run close
    the trace, the disk is the one the run leaves, which is the disk after
    its writes when the run returns, the lines after "1" stay unread, and
    [main] ends as the run does. *)
Theorem main_runs_the_sample_once (fs : FS) (paths rest : list string)
    (run : saving FS) :
  (forall p, In p paths ->
             p <> "1" /\ p <> "2" /\ rejected (read_csv fs p) = true) ->
  save_csv scorer FS read_csv to_csv fs "data/2015.csv" = run ->
  trace (main scorer FS read_csv to_csv fs (paths ++ "1" :: rest))
  = flat_map (fun p => [Prompt; Saving (Print (rejection (read_csv fs p)))])
             paths ++ Prompt :: List.map Saving (effects run)
  /\ disk_after (main scorer FS read_csv to_csv fs (paths ++ "1" :: rest))
     = disk run
  /\ (outcome run = Returned ->
      disk_after (main scorer FS read_csv to_csv fs (paths ++ "1" :: rest))
      = fold_left (perform FS to_csv) (effects run) fs)
  /\ unread (main scorer FS read_csv to_csv fs (paths ++ "1" :: rest)) = rest
  /\ ended (main scorer FS read_csv to_csv fs (paths ++ "1" :: rest))
     = outcome run.
Proof.
  intros H S.
  destruct (main_rejected_paths fs paths ("1" :: rest) H) as (T & D & U & E).
  cbn [main String.eqb Ascii.eqb Bool.eqb] in *. rewrite S in *.
  cbn [trace disk_after unread ended] in *. repeat split; trivial.
  intros O. rewrite D, <- S. apply save_csv_disk. now rewrite S.
Qed.

(** [main] returns only through a line "1" or "2": the lines before it are
    other lines, each of which got one prompt as the choice did, and the
    lines after it are not read. *)
Theorem main_returns_on_choice (inputs : list string) :
  forall fs,
  ended (main scorer FS read_csv to_csv fs inputs) = Returned ->
  exists before choice,
    inputs
    = before ++ choice :: unread (main scorer FS read_csv to_csv fs inputs)
    /\ (choice = "1" \/ choice = "2")
    /\ (forall p, In p before -> p <> "1" /\ p <> "2")
    /\ length (filter is_prompt
                      (trace (main scorer FS read_csv to_csv fs inputs)))
       = S (length before).
Proof.
  induction inputs as [|p rest IH]; intros fs; [discriminate|].
  cbn [main].
  destruct (String.eqb_spec p "1") as [->|N1].
  - intros _. exists [], "1". cbn [trace unread filter is_prompt app].
    rewrite no_prompt_in_effects.
    split; [reflexivity|]. split; [now left|]. split; [intros q []|reflexivity].
  - destruct (String.eqb_spec p "2") as [->|N2].
    + intros _. exists [], "2".
      split; [reflexivity|]. split; [now right|].
      split; [intros q []|reflexivity].
    + destruct (outcome (save_csv scorer FS read_csv to_csv fs p));
        [|discriminate].
      cbn [trace unread ended]. intros E.
      destruct (IH _ E) as (before & choice & Ei & Hc & Hb & Hp).
      exists (p :: before), choice. split; [simpl; now rewrite <- Ei|].
      split; [exact Hc|]. split.
      * intros q [<-|Hq]; auto.
      * cbn [filter is_prompt]. rewrite filter_app, no_prompt_in_effects.
        simpl. now rewrite Hp.
Qed.

End MainFacts.

Lemma main_absorbs_failures_witness :
  (forall p, In p ["missing.csv"; "short.csv"] ->
             p <> "1" /\ p <> "2" /\ rejected (read_file disk_2015 p) = true)
  /\ trace (main Fuzz.token_sort_ratio files read_file write_file disk_2015
                 (["missing.csv"; "short.csv"] ++ "2" :: ["data/2015.csv"]))
     = flat_map (fun p => [Prompt;
                           Saving (Print (rejection (read_file disk_2015 p)))])
                ["missing.csv"; "short.csv"] ++ [Prompt; Quitting]
  /\ existsb is_write
       (trace (main Fuzz.token_sort_ratio files read_file write_file disk_2015
                    (["missing.csv"; "short.csv"] ++ "2" :: ["data/2015.csv"])))
     = false
  /\ disk_after
       (main Fuzz.token_sort_ratio files read_file write_file disk_2015
             (["missing.csv"; "short.csv"] ++ "2" :: ["data/2015.csv"]))
     = disk_2015
  /\ unread
       (main Fuzz.token_sort_ratio files read_file write_file disk_2015
             (["missing.csv"; "short.csv"] ++ "2" :: ["data/2015.csv"]))
     = ["data/2015.csv"]
  /\ ended
       (main Fuzz.token_sort_ratio files read_file write_file disk_2015
             (["missing.csv"; "short.csv"] ++ "2" :: ["data/2015.csv"]))
     = Returned.
Proof.
  assert (H : forall p, In p ["missing.csv"; "short.csv"] ->
                p <> "1" /\ p <> "2" /\ rejected (read_file disk_2015 p) = true).
  { intros p [<-|[<-|[]]]; repeat split; (discriminate || reflexivity). }
  split; [exact H|].
  exact (main_absorbs_failures Fuzz.token_sort_ratio files read_file write_file
           disk_2015 ["missing.csv"; "short.csv"] ["data/2015.csv"] H).
Defined.

Lemma main_runs_the_sample_once_witness :
  (forall p, In p ["missing.csv"] ->
             p <> "1" /\ p <> "2" /\ rejected (read_file disk_2015 p) = true)
  /\ save_csv Fuzz.token_sort_ratio files read_file write_file disk_2015
              "data/2015.csv"
     = run_2015
  /\ trace (main Fuzz.token_sort_ratio files read_file write_file disk_2015
                 (["missing.csv"] ++ "1" :: ["2"]))
     = flat_map (fun p => [Prompt;
                           Saving (Print (rejection (read_file disk_2015 p)))])
                ["missing.csv"]
       ++ Prompt :: List.map Saving (effects run_2015)
  /\ disk_after
       (main Fuzz.token_sort_ratio files read_file write_file disk_2015
             (["missing.csv"] ++ "1" :: ["2"]))
     = disk run_2015
  /\ (outcome run_2015 = Returned ->
      disk_after
        (main Fuzz.token_sort_ratio files read_file write_file disk_2015
              (["missing.csv"] ++ "1" :: ["2"]))
      = fold_left (perform files write_file) (effects run_2015) disk_2015)
  /\ unread
       (main Fuzz.token_sort_ratio files read_file write_file disk_2015
             (["missing.csv"] ++ "1" :: ["2"]))
     = ["2"]
  /\ ended
       (main Fuzz.token_sort_ratio files read_file write_file disk_2015
             (["missing.csv"] ++ "1" :: ["2"]))
     = outcome run_2015.
Proof.
  assert (H : forall p, In p ["missing.csv"] ->
                p <> "1" /\ p <> "2" /\ rejected (read_file disk_2015 p) = true).
  { intros p [<-|[]]; repeat split; (discriminate || reflexivity). }
  assert (S : save_csv Fuzz.token_sort_ratio files read_file write_file
                       disk_2015 "data/2015.csv"
              = run_2015)
    by (vm_compute; reflexivity).
  split; [exact H|]. split; [exact S|].
  exact (main_runs_the_sample_once Fuzz.token_sort_ratio files read_file
           write_file disk_2015 ["missing.csv"] ["2"] run_2015 H S).
Defined.

Lemma main_returns_on_choice_witness :
  ended (main Fuzz.token_sort_ratio files read_file write_file disk_2015
              ["missing.csv"; "2"; "1"]) = Returned
  /\ exists before choice,
       ["missing.csv"; "2"; "1"]
       = before ++ choice
           :: unread (main Fuzz.token_sort_ratio files read_file write_file
                           disk_2015 ["missing.csv"; "2"; "1"])
       /\ (choice = "1" \/ choice = "2")
       /\ (forall p, In p before -> p <> "1" /\ p <> "2")
       /\ length (filter is_prompt
                    (trace (main Fuzz.token_sort_ratio files read_file
                                 write_file disk_2015 ["missing.csv"; "2"; "1"])))
          = S (length before).
Proof.
  split; [reflexivity|].
  exact (main_returns_on_choice Fuzz.token_sort_ratio files read_file write_file
           ["missing.csv"; "2"; "1"] disk_2015 eq_refl).
Defined.
